(** * AI-Notebooks / MCP Astera Legacy: calculator and Tavily search tools

    A shallow embedding of [main.py] (the calculator tools) and
    [tavily_server.py] (the domain-list normaliser, the result formatter and
    the three search handlers), with the properties the specification states
    about them.

    Conventions of the embedding:
    - a Python [str] is a list of Unicode code points ([N]);
    - a Python exception is a constructor of [exn]; a call that may raise
      returns a [result];
    - the search provider ([client.search]) is a parameter of the handlers,
      and every handler returns the list of requests it sent to it. *)

From Stdlib Require Import List NArith ZArith Lia Bool String Ascii Floats.
From Stdlib Require Import DecimalString.
Import ListNotations.

Set Warnings "-register-all".

(* ===================================================================== *)
(** ** Python strings *)
(* ===================================================================== *)

Module PyStr.

Local Open Scope N_scope.

(** A code point, and a [str] as the sequence of its code points. *)
Definition char := N.
Definition str := list char.

(** An ASCII literal as a [str]. *)
Definition lit (s : string) : str := map N_of_ascii (list_ascii_of_string s).
Arguments lit s%_string.

Definition comma : char := 44.
Definition dquote : char := 34.
Definition newline : char := 10.

(** A literal between double quotes, as it appears inside JSON text. *)
Definition quoted (s : str) : str := dquote :: s ++ [dquote].

(** [str.isspace] on one code point: the code points CPython's
    [Py_UNICODE_ISSPACE] accepts. *)
Definition isspace (c : char) : bool :=
  ((0x09 <=? c) && (c <=? 0x0D)) || ((0x1C <=? c) && (c <=? 0x20))
  || (c =? 0x85) || (c =? 0xA0) || (c =? 0x1680)
  || ((0x2000 <=? c) && (c <=? 0x200A))
  || (c =? 0x2028) || (c =? 0x2029) || (c =? 0x202F) || (c =? 0x205F)
  || (c =? 0x3000).

(** Truth value of a string: [bool(s)], true when [s] is not empty. *)
Definition truthy (s : str) : bool :=
  match s with [] => false | _ :: _ => true end.

(** [s.lstrip()] *)
Fixpoint lstrip (s : str) : str :=
  match s with
  | [] => []
  | c :: r => if isspace c then lstrip r else s
  end.

(** [s.rstrip()] *)
Fixpoint rstrip (s : str) : str :=
  match s with
  | [] => []
  | c :: r =>
      match rstrip r with
      | [] => if isspace c then [] else [c]
      | r' => c :: r'
      end
  end.

(** [s.strip()]: whitespace removed at both ends. *)
Definition strip (s : str) : str := rstrip (lstrip s).

(** [s.split(sep)] for a one-character separator: never the empty list. *)
Fixpoint split (sep : char) (s : str) : list str :=
  match s with
  | [] => [[]]
  | c :: r =>
      if c =? sep then [] :: split sep r
      else match split sep r with
           | h :: t => (c :: h) :: t
           | [] => [[c]]
           end
  end.

(** [sep.join(l)] *)
Fixpoint join (sep : str) (l : list str) : str :=
  match l with
  | [] => []
  | [x] => x
  | x :: r => x ++ sep ++ join sep r
  end.

(** [c in s] for a one-character [c]. *)
Definition contains (c : char) (s : str) : bool := existsb (N.eqb c) s.

(** [s.startswith(p)], returning what follows the prefix. *)
Fixpoint strip_prefix (p s : str) : option str :=
  match p, s with
  | [], _ => Some s
  | a :: p', b :: s' => if a =? b then strip_prefix p' s' else None
  | _ :: _, [] => None
  end.

(** [a == b] on strings. *)
Fixpoint str_eqb (a b : str) : bool :=
  match a, b with
  | [], [] => true
  | x :: a', y :: b' => (x =? y) && str_eqb a' b'
  | _, _ => false
  end.

End PyStr.
Export PyStr.

(* ===================================================================== *)
(** ** Python values, exceptions and results *)
(* ===================================================================== *)

(** The values that reach the tools: what a JSON-RPC argument can hold and
    what [json.loads] builds.  A float is kept as the literal it is read
    from; no claim depends on its numeric value. *)
Inductive value : Type :=
| VNone
| VBool (b : bool)
| VInt (z : Z)
| VFloat (literal : str)
| VStr (s : str)
| VList (l : list value)
| VDict (items : list (str * value)).

(** The exceptions the two modules raise, catch or let through.
    [AttributeError] comes from a method call on a value that lacks the
    method, [RecursionError] from [json.loads] on a text nested too deep.
    The others carry their [str(e)] message: [ValueError] (an instance of
    the class itself or of a subclass without a constructor of its own),
    [JSONDecodeError] (json.JSONDecodeError, a subclass of [ValueError]), the
    provider's two named errors, and [OtherError] for any other class that
    is not a [ValueError]. *)
Inductive exn : Type :=
| AttributeError
| RecursionError
| ValueError (msg : str)
| JSONDecodeError (msg : str)
| InvalidAPIKeyError (msg : str)
| UsageLimitExceededError (msg : str)
| OtherError (msg : str).

(** The outcome of a call that may raise, for a type [E] of exceptions. *)
Inductive outcome (E A : Type) : Type :=
| Return (a : A)
| Raise (e : E).
Arguments Return {E A} a.
Arguments Raise {E A} e.

(** The outcome of a call that raises Python exceptions. *)
Abbreviation result := (outcome exn).

Definition rbind {E A B} (r : outcome E A) (k : A -> outcome E B) : outcome E B :=
  match r with
  | Return a => k a
  | Raise e => Raise e
  end.

Declare Scope py_scope.
Delimit Scope py_scope with py.
Notation "x <- c ;; k" := (rbind c (fun x => k))
  (at level 61, c at next level, right associativity) : py_scope.

(* ===================================================================== *)
(** ** The JSON decoder behind [json.loads] *)
(* ===================================================================== *)

(** The decoder follows CPython's [json.decoder] and its scanner with the
    default settings ([strict=True], the constants [NaN], [Infinity] and
    [-Infinity] accepted), and the interpreter's two limits that make
    [json.loads] raise something else than a decoding error: the limit on
    the digits of an [int] and the recursion limit. *)

Module Json.

Local Open Scope N_scope.

(** [sys.get_int_max_str_digits()]: the default of the interpreter. *)
Definition int_max_str_digits : nat := 4300.

(** The nesting of arrays and objects that the interpreter allows inside
    one [json.loads] call: [sys.getrecursionlimit()], 1000 by default.  The
    frames in use when the call is made lower the depth that is left; no
    proof below uses more of this value than that it is at least 1. *)
Definition recursion_limit : nat := 1000.

(** What [json.loads] raises: the decoding error (json.JSONDecodeError),
    which its one caller catches without reading its message, so that the
    message is not part of the model; or an exception that passes through
    that [except] clause. *)
Inductive loads_error : Type :=
| DecodeError
| Passed (e : exn).

(** A scan step: a value and the text that follows it; a syntax error
    ([StopIteration] or json.JSONDecodeError in the decoder); another
    exception; or the iteration counter of a loop of the model used up
    (which never happens, lemma [decode_not_spent]). *)
Inductive scan (A : Type) : Type :=
| Done (a : A) (rest : str)
| Fail
| Stop (e : exn)
| Spent.
Arguments Done {A} a rest.
Arguments Fail {A}.
Arguments Stop {A} e.
Arguments Spent {A}.

(** The decoder's [WHITESPACE]: space, tab, line feed, carriage return. *)
Definition is_ws (c : char) : bool :=
  (c =? 0x20) || (c =? 0x09) || (c =? 0x0A) || (c =? 0x0D).

Fixpoint skip_ws (s : str) : str :=
  match s with
  | [] => []
  | c :: r => if is_ws c then skip_ws r else s
  end.

Definition is_digit (c : char) : bool := (0x30 <=? c) && (c <=? 0x39).

Fixpoint span_digits (s : str) : str * str :=
  match s with
  | [] => ([], [])
  | c :: r =>
      if is_digit c then let (d, r') := span_digits r in (c :: d, r')
      else ([], s)
  end.

(** The integer part of a number: an optional minus sign, then a single
    zero or a non-zero digit followed by digits. *)
Definition match_integer (s : str) : option (str * str) :=
  let (sign, r) :=
    match s with
    | c :: r => if c =? 0x2D then ([c], r) else ([], s)
    | [] => ([], s)
    end in
  match r with
  | [] => None
  | c :: r' =>
      if c =? 0x30 then Some (sign ++ [c], r')
      else if is_digit c then
        let (d, r'') := span_digits r' in Some (sign ++ c :: d, r'')
      else None
  end.

(** The fraction: a dot and at least one digit. *)
Definition match_frac (s : str) : option (str * str) :=
  match s with
  | c :: d :: r =>
      if (c =? 0x2E) && is_digit d then
        let (ds, r') := span_digits r in Some (c :: d :: ds, r')
      else None
  | _ => None
  end.

(** The exponent: [e] or [E], an optional sign, at least one digit. *)
Definition match_exp (s : str) : option (str * str) :=
  match s with
  | e :: r =>
      if (e =? 0x65) || (e =? 0x45) then
        let (sg, r1) :=
          match r with
          | c :: r1 => if (c =? 0x2D) || (c =? 0x2B) then ([c], r1) else ([], r)
          | [] => ([], r)
          end in
        match span_digits r1 with
        | ([], _) => None
        | (ds, r2) => Some (e :: sg ++ ds, r2)
        end
      else None
  | [] => None
  end.

(** The value of a matched integer part. *)
Definition int_of_digits (ds : str) : Z :=
  fold_left (fun acc c => (10 * acc + Z.of_N (c - 0x30))%Z) ds 0%Z.

Definition parse_int (i : str) : Z :=
  match i with
  | c :: ds => if c =? 0x2D then (- int_of_digits ds)%Z else int_of_digits i
  | [] => 0%Z
  end.

(** The digits of a matched integer part, without its sign. *)
Definition digits_of (i : str) : str :=
  match i with
  | c :: ds => if c =? 0x2D then ds else i
  | [] => []
  end.

(** A number in decimal. *)
Definition decimal (n : nat) : str :=
  lit (NilZero.string_of_uint (Nat.to_uint n)).

(** The message of the [ValueError] that [int] raises on a text of [n]
    digits, [n] above the limit. *)
Definition digit_limit_message (n : nat) : str :=
  lit "Exceeds the limit (4300 digits) for integer string conversion: value has "
  ++ decimal n
  ++ lit " digits; use sys.set_int_max_str_digits() to increase the limit".

(** [int(integer)] on a matched integer part: a [ValueError] when it has
    more digits than the limit. *)
Definition int_of_literal (i : str) : result value :=
  if (List.length (digits_of i) <=? int_max_str_digits)%nat
  then Return (VInt (parse_int i))
  else Raise (ValueError (digit_limit_message (List.length (digits_of i)))).

(** [NUMBER_RE.match] and the conversion of what it matched: an [int] when
    there is neither fraction nor exponent, a [float] otherwise. *)
Definition match_number (s : str) : option (result value * str) :=
  match match_integer s with
  | None => None
  | Some (i, r) =>
      let (f, r1) :=
        match match_frac r with Some (f, r1) => (f, r1) | None => ([], r) end in
      let (e, r2) :=
        match match_exp r1 with Some (e, r2) => (e, r2) | None => ([], r1) end in
      match f, e with
      | [], [] => Some (int_of_literal i, r2)
      | _, _ => Some (Return (VFloat (i ++ f ++ e)), r2)
      end
  end.

(** The branches of [scan_once] that read no nested value: the three
    literals, a number, and the three float constants. *)
Definition scan_atom (s : str) : scan value :=
  match strip_prefix (lit "null") s with
  | Some r => Done VNone r
  | None =>
  match strip_prefix (lit "true") s with
  | Some r => Done (VBool true) r
  | None =>
  match strip_prefix (lit "false") s with
  | Some r => Done (VBool false) r
  | None =>
  match match_number s with
  | Some (Return v, r) => Done v r
  | Some (Raise e, _) => Stop e
  | None =>
  match strip_prefix (lit "NaN") s with
  | Some r => Done (VFloat (lit "NaN")) r
  | None =>
  match strip_prefix (lit "Infinity") s with
  | Some r => Done (VFloat (lit "Infinity")) r
  | None =>
  match strip_prefix (lit "-Infinity") s with
  | Some r => Done (VFloat (lit "-Infinity")) r
  | None => Fail
  end end end end end end end.

(** One hexadecimal digit of a [\uXXXX] escape. *)
Definition hex_digit (c : char) : option N :=
  if is_digit c then Some (c - 0x30)
  else if (0x61 <=? c) && (c <=? 0x66) then Some (c - 0x61 + 10)
  else if (0x41 <=? c) && (c <=? 0x46) then Some (c - 0x41 + 10)
  else None.

Definition hex4 (a b c d : char) : option N :=
  match hex_digit a, hex_digit b, hex_digit c, hex_digit d with
  | Some x, Some y, Some z, Some w => Some (((x * 16 + y) * 16 + z) * 16 + w)
  | _, _, _, _ => None
  end.

(** [BACKSLASH]: the one-character escapes. *)
Definition escape (c : char) : option char :=
  if c =? 0x22 then Some 0x22
  else if c =? 0x5C then Some 0x5C
  else if c =? 0x2F then Some 0x2F
  else if c =? 0x62 then Some 0x08
  else if c =? 0x66 then Some 0x0C
  else if c =? 0x6E then Some 0x0A
  else if c =? 0x72 then Some 0x0D
  else if c =? 0x74 then Some 0x09
  else None.

Definition is_high_surrogate (c : N) : bool := (0xD800 <=? c) && (c <=? 0xDBFF).
Definition is_low_surrogate (c : N) : bool := (0xDC00 <=? c) && (c <=? 0xDFFF).
Definition join_surrogates (hi lo : N) : N :=
  0x10000 + ((hi - 0xD800) * 0x400 + (lo - 0xDC00)).

(** The low half of a surrogate pair, when the escape just read is a high
    surrogate and a second [\uXXXX] escape with a low surrogate follows. *)
Definition low_escape (hi : N) (s : str) : option N :=
  if is_high_surrogate hi then
    match s with
    | b :: u :: h1 :: h2 :: h3 :: h4 :: _ =>
        if (b =? 0x5C) && (u =? 0x75) then
          match hex4 h1 h2 h3 h4 with
          | Some lo => if is_low_surrogate lo then Some lo else None
          | None => None
          end
        else None
    | _ => None
    end
  else None.

Definition cons_char (c : char) (o : option (str * str)) : option (str * str) :=
  match o with
  | Some (x, rest) => Some (c :: x, rest)
  | None => None
  end.

(** [scanstring(s, end, strict=True)], from the character after the opening
    quote: the decoded contents and the text after the closing quote.
    [None] is one of its decoding errors (unterminated string, invalid
    escape, control character). *)
Fixpoint scanstring (s : str) : option (str * str) :=
  match s with
  | [] => None
  | c :: r =>
      if c =? 0x22 then Some ([], r)
      else if c =? 0x5C then
        match r with
        | [] => None
        | e :: r1 =>
            if e =? 0x75 then
              match r1 with
              | h1 :: h2 :: h3 :: h4 :: r2 =>
                  match hex4 h1 h2 h3 h4 with
                  | None => None
                  | Some u =>
                      match low_escape u r2, r2 with
                      | Some lo, _ :: _ :: _ :: _ :: _ :: _ :: r3 =>
                          cons_char (join_surrogates u lo) (scanstring r3)
                      | _, _ => cons_char u (scanstring r2)
                      end
                  end
              | _ => None
              end
            else
              match escape e with
              | Some x => cons_char x (scanstring r1)
              | None => None
              end
        end
      else if c <? 0x20 then None
      else cons_char c (scanstring r)
  end.

(** [dict(pairs)]: a later pair with a key already present replaces its
    value in place. *)
Fixpoint dict_set (k : str) (v : value) (d : list (str * value)) : list (str * value) :=
  match d with
  | [] => [(k, v)]
  | (k', v') :: r => if str_eqb k k' then (k, v) :: r else (k', v') :: dict_set k v r
  end.

Definition dict_of_pairs (pairs : list (str * value)) : list (str * value) :=
  fold_left (fun d kv => dict_set (fst kv) (snd kv) d) pairs [].

Section Containers.

(** [JSONArray] and [JSONObject] receive the scanner of values as an
    argument, as in the decoder. *)
Variable scan_once : str -> scan value.

(** The [while True] loop of [JSONArray], entered at a value.  The counter
    bounds the number of iterations and is set from the length of the
    text; [Spent] when it runs out. *)
Fixpoint array_items (n : nat) (s : str) : scan (list value) :=
  match n with
  | O => Spent
  | S n' =>
      match scan_once s with
      | Done v r =>
          match skip_ws r with
          | [] => Fail
          | c :: r1 =>
              if c =? 0x5D then Done [v] r1
              else if c =? 0x2C then
                match array_items n' (skip_ws r1) with
                | Done vs r2 => Done (v :: vs) r2
                | Fail => Fail
                | Stop e => Stop e
                | Spent => Spent
                end
              else Fail
          end
      | Fail => Fail
      | Stop e => Stop e
      | Spent => Spent
      end
  end.

(** [JSONArray], from the character after the opening bracket. *)
Definition JSONArray (s : str) : scan value :=
  match skip_ws s with
  | [] => Fail
  | c :: r =>
      if c =? 0x5D then Done (VList []) r
      else
        match array_items (S (List.length s)) (c :: r) with
        | Done vs rest => Done (VList vs) rest
        | Fail => Fail
        | Stop e => Stop e
        | Spent => Spent
        end
  end.

(** The [while True] loop of [JSONObject], entered after the opening
    quote of a key. *)
Fixpoint object_items (n : nat) (s : str) : scan (list (str * value)) :=
  match n with
  | O => Spent
  | S n' =>
      match scanstring s with
      | None => Fail
      | Some (key, r) =>
          match skip_ws r with
          | [] => Fail
          | c :: r1 =>
              if c =? 0x3A then
                match scan_once (skip_ws r1) with
                | Done v r2 =>
                    match skip_ws r2 with
                    | [] => Fail
                    | d :: r3 =>
                        if d =? 0x7D then Done [(key, v)] r3
                        else if d =? 0x2C then
                          match skip_ws r3 with
                          | [] => Fail
                          | q :: r4 =>
                              if q =? 0x22 then
                                match object_items n' r4 with
                                | Done kvs r5 => Done ((key, v) :: kvs) r5
                                | Fail => Fail
                                | Stop e => Stop e
                                | Spent => Spent
                                end
                              else Fail
                          end
                        else Fail
                    end
                | Fail => Fail
                | Stop e => Stop e
                | Spent => Spent
                end
              else Fail
          end
      end
  end.

(** [JSONObject], from the character after the opening brace. *)
Definition JSONObject (s : str) : scan value :=
  match skip_ws s with
  | [] => Fail
  | c :: r =>
      if c =? 0x7D then Done (VDict []) r
      else if c =? 0x22 then
        match object_items (S (List.length s)) r with
        | Done kvs rest => Done (VDict (dict_of_pairs kvs)) rest
        | Fail => Fail
        | Stop e => Stop e
        | Spent => Spent
        end
      else Fail
  end.

End Containers.

(** [scan_once(string, idx)].  The first argument is the nesting of arrays
    and objects still allowed: entering one when it is zero raises
    [RecursionError]. *)
Fixpoint scan_once (depth : nat) (s : str) : scan value :=
  match s with
  | [] => Fail
  | c :: r =>
      if c =? 0x22 then
        match scanstring r with
        | Some (x, rest) => Done (VStr x) rest
        | None => Fail
        end
      else if c =? 0x7B then
        match depth with
        | O => Stop RecursionError
        | S d => JSONObject (scan_once d) r
        end
      else if c =? 0x5B then
        match depth with
        | O => Stop RecursionError
        | S d => JSONArray (scan_once d) r
        end
      else scan_atom s
  end.

(** [JSONDecoder.decode]: leading whitespace, one value, trailing
    whitespace, and nothing else ("Extra data" otherwise). *)
Definition decode (s : str) : scan value :=
  match scan_once recursion_limit (skip_ws s) with
  | Done v r =>
      match skip_ws r with
      | [] => Done v []
      | _ :: _ => Fail
      end
  | Fail => Fail
  | Stop e => Stop e
  | Spent => Spent
  end.

(** [json.loads(s)] for a [str].  The last case never arises (lemma
    [decode_not_spent]). *)
Definition json_loads (s : str) : outcome loads_error value :=
  match decode s with
  | Done v _ => Return v
  | Fail => Raise DecodeError
  | Stop e => Raise (Passed e)
  | Spent => Raise DecodeError
  end.

End Json.
Export Json.

(* ===================================================================== *)
(** ** tavily_server.py *)
(* ===================================================================== *)

Module Tavily.

Local Open Scope py_scope.

(** *** The domain-list validator of [SearchBase] *)

(** [domain.strip()] on a value of unknown type: only a [str] has the
    method. *)
Definition strip_method (domain : value) : result str :=
  match domain with
  | VStr s => Return (strip s)
  | _ => Raise AttributeError
  end.

(** [[domain.strip() for domain in l if domain.strip()]] over values of
    unknown type: the condition is evaluated first, then the element. *)
Fixpoint stripped_domains (l : list value) : result (list str) :=
  match l with
  | [] => Return []
  | domain :: r =>
      cond <- strip_method domain ;;
      if truthy cond then
        d <- strip_method domain ;;
        rest <- stripped_domains r ;;
        Return (d :: rest)
      else stripped_domains r
  end.

(** The same comprehension over a list of [str], where no call can raise. *)
Fixpoint stripped_nonempty (l : list str) : list str :=
  match l with
  | [] => []
  | domain :: r =>
      if truthy (strip domain) then strip domain :: stripped_nonempty r
      else stripped_nonempty r
  end.

(** [SearchBase.parse_domains_list(cls, v)] *)
Definition parse_domains_list (v : value) : result (list str) :=
  match v with
  | VNone => Return []
  | VList l => stripped_domains l
  | VStr s =>
      let v := strip s in
      if negb (truthy v) then Return []
      else
        match json_loads v with
        | Return parsed =>
            match parsed with
            | VList l => stripped_domains l
            | _ => d <- strip_method parsed ;; Return [d]
            end
        | Raise DecodeError =>
            if contains comma v then Return (stripped_nonempty (split comma v))
            else Return [v]
        | Raise (Passed e) => Raise e
        end
  | _ => Return []
  end.

(** The constraint [gt=0, lt=20] that [SearchBase] declares on
    [max_results]. *)
Definition SearchBase_max_results_ok (n : Z) : bool := ((0 <? n) && (n <? 20))%Z.

(** *** The provider's response and [format_results] *)

(** One entry of [response["results"]]. *)
Record ResultItem : Type := {
  title : str;
  url : str;
  content : str;
  published_date : option str
}.

(** The response dictionary, with the keys [format_results] reads; [None]
    is a key that is absent or holds [None]. *)
Record Response : Type := {
  answer : option str;
  results : list ResultItem;
  included_domains : option (list str);
  excluded_domains : option (list str)
}.

(** Truth value of [d.get(key)] for a string and for a list. *)
Definition truthy_str (o : option str) : bool :=
  match o with Some (_ :: _) => true | _ => false end.
Definition truthy_list (o : option (list str)) : bool :=
  match o with Some (_ :: _) => true | _ => false end.

(** [d[key]] once [d.get(key)] was found true. *)
Definition the_str (o : option str) : str :=
  match o with Some s => s | None => [] end.
Definition the_list (o : option (list str)) : list str :=
  match o with Some l => l | None => [] end.

(** [format_results(response)]: the list [output] grows by [append] and
    [extend], and is joined with newlines at the end. *)
Definition format_results (response : Response) : str :=
  let output : list str := [] in
  let output :=
    if truthy_list (included_domains response) || truthy_list (excluded_domains response)
    then
      let filters : list str := [] in
      let filters :=
        if truthy_list (included_domains response)
        then filters ++ [lit "Including domains: "
                         ++ join (lit ", ") (the_list (included_domains response))]
        else filters in
      let filters :=
        if truthy_list (excluded_domains response)
        then filters ++ [lit "Excluding domains: "
                         ++ join (lit ", ") (the_list (excluded_domains response))]
        else filters in
      let output := output ++ [lit "Search Filters:"] in
      let output := output ++ filters in
      output ++ [[]]
    else output in
  let output :=
    if truthy_str (answer response)
    then
      let output := output ++ [lit "Answer: " ++ the_str (answer response)] in
      let output := output ++ [newline :: lit "Sources:"] in
      let output :=
        fold_left
          (fun out result => out ++ [lit "- " ++ title result ++ lit ": " ++ url result])
          (results response) output in
      output ++ [[]]
    else output in
  let output := output ++ [lit "Detailed Results:"] in
  let output :=
    fold_left
      (fun out result =>
         let out := out ++ [newline :: lit "Title: " ++ title result] in
         let out := out ++ [lit "URL: " ++ url result] in
         let out := out ++ [lit "Content: " ++ content result] in
         if truthy_str (published_date result)
         then out ++ [lit "Published: " ++ the_str (published_date result)]
         else out)
      (results response) output in
  join [newline] output.

(** *** The three search tools *)

(** The keyword arguments of one [client.search] call; [None] is an
    argument the call does not pass. *)
Record Request : Type := {
  rq_query : str;
  rq_max_results : Z;
  rq_search_depth : option str;
  rq_topic : option str;
  rq_days : option Z;
  rq_include_answer : bool;
  rq_include_domains : list str;
  rq_exclude_domains : list str
}.

Inductive ErrorCode : Type := INVALID_PARAMS | INTERNAL_ERROR.

(** What an invocation gives its caller: the formatted text, an
    [McpError(ErrorData(code, message))], or an exception no clause
    catches. *)
Inductive Reply : Type :=
| Text (s : str)
| McpError (code : ErrorCode) (message : str)
| Uncaught (e : exn).

(** The two [except] clauses shared by the three tools.  The second
    catches every [ValueError], json.JSONDecodeError among them. *)
Definition except_clauses (e : exn) : Reply :=
  match e with
  | InvalidAPIKeyError m => McpError INTERNAL_ERROR m
  | UsageLimitExceededError m => McpError INTERNAL_ERROR m
  | ValueError m => McpError INVALID_PARAMS m
  | JSONDecodeError m => McpError INVALID_PARAMS m
  | AttributeError | RecursionError | OtherError _ => Uncaught e
  end.

(** The inline parsing of a [include_domains] / [exclude_domains] argument
    in the tools: the list starts empty and is replaced when the argument is
    neither empty nor blank. *)
Definition domain_arg_list (domains : str) : list str :=
  let domain_list : list str := [] in
  if truthy domains && truthy (strip domains)
  then stripped_nonempty (split comma domains)
  else domain_list.

(** [response["included_domains"] = include_list] when the list is not
    empty, and the same for the excluded domains. *)
Definition attach_filters (include_list exclude_list : list str) (response : Response)
  : Response :=
  let response :=
    match include_list with
    | _ :: _ => {| answer := answer response; results := results response;
                   included_domains := Some include_list;
                   excluded_domains := excluded_domains response |}
    | [] => response
    end in
  match exclude_list with
  | _ :: _ => {| answer := answer response; results := results response;
                 included_domains := included_domains response;
                 excluded_domains := Some exclude_list |}
  | [] => response
  end.

(** [x not in ["basic", "advanced"]] *)
Definition not_in_depths (search_depth : str) : bool :=
  negb (str_eqb search_depth (lit "basic") || str_eqb search_depth (lit "advanced")).

(** A tool invocation by name, as the tool server dispatches it. *)
Inductive Call : Type :=
| WebSearch (query : str) (max_results : Z)
    (search_depth include_domains exclude_domains : str)
| AnswerSearch (query : str) (max_results : Z)
    (search_depth include_domains exclude_domains : str)
| NewsSearch (query : str) (max_results days : Z)
    (include_domains exclude_domains : str).

Definition call_max_results (c : Call) : Z :=
  match c with
  | WebSearch _ n _ _ _ | AnswerSearch _ n _ _ _ | NewsSearch _ n _ _ _ => n
  end.

Section Tools.

(** [client.search]: the external provider, which answers a request with
    a response or raises. *)
Variable client_search : Request -> result Response.

(** [tavily_web_search(query, max_results, search_depth, include_domains,
    exclude_domains)]: the requests sent to the provider, and the reply. *)
Definition tavily_web_search (query : str) (max_results : Z)
    (search_depth include_domains exclude_domains : str) : list Request * Reply :=
  let search_depth :=
    if not_in_depths search_depth then lit "basic" else search_depth in
  let include_list := domain_arg_list include_domains in
  let exclude_list := domain_arg_list exclude_domains in
  let request :=
    {| rq_query := query; rq_max_results := max_results;
       rq_search_depth := Some search_depth; rq_topic := None; rq_days := None;
       rq_include_answer := false;
       rq_include_domains := include_list; rq_exclude_domains := exclude_list |} in
  match client_search request with
  | Return response =>
      let response := attach_filters include_list exclude_list response in
      ([request], Text (format_results response))
  | Raise e => ([request], except_clauses e)
  end.

(** [tavily_answer_search(query, max_results, search_depth,
    include_domains, exclude_domains)] *)
Definition tavily_answer_search (query : str) (max_results : Z)
    (search_depth include_domains exclude_domains : str) : list Request * Reply :=
  let search_depth :=
    if not_in_depths search_depth then lit "advanced" else search_depth in
  let include_list := domain_arg_list include_domains in
  let exclude_list := domain_arg_list exclude_domains in
  let request :=
    {| rq_query := query; rq_max_results := max_results;
       rq_search_depth := Some search_depth; rq_topic := None; rq_days := None;
       rq_include_answer := true;
       rq_include_domains := include_list; rq_exclude_domains := exclude_list |} in
  match client_search request with
  | Return response =>
      let response := attach_filters include_list exclude_list response in
      ([request], Text (format_results response))
  | Raise e => ([request], except_clauses e)
  end.

(** [tavily_news_search(query, max_results, days, include_domains,
    exclude_domains)] *)
Definition tavily_news_search (query : str) (max_results days : Z)
    (include_domains exclude_domains : str) : list Request * Reply :=
  let include_list := domain_arg_list include_domains in
  let exclude_list := domain_arg_list exclude_domains in
  let request :=
    {| rq_query := query; rq_max_results := max_results;
       rq_search_depth := None; rq_topic := Some (lit "news"); rq_days := Some days;
       rq_include_answer := false;
       rq_include_domains := include_list; rq_exclude_domains := exclude_list |} in
  match client_search request with
  | Return response =>
      let response := attach_filters include_list exclude_list response in
      ([request], Text (format_results response))
  | Raise e => ([request], except_clauses e)
  end.

Definition invoke (c : Call) : list Request * Reply :=
  match c with
  | WebSearch q n sd inc exc => tavily_web_search q n sd inc exc
  | AnswerSearch q n sd inc exc => tavily_answer_search q n sd inc exc
  | NewsSearch q n d inc exc => tavily_news_search q n d inc exc
  end.

End Tools.

End Tavily.
Export Tavily.

(* ===================================================================== *)
(** ** main.py: the calculator tools *)
(* ===================================================================== *)

Module Calculator.

(** [int(a)] on an argument the tool schema types as [int]. *)
Definition int (a : Z) : Z := a.

(** [add(a, b)] *)
Definition add (a b : Z) : Z := (int a + int b)%Z.

(** [subtract(a, b)] *)
Definition subtract (a b : Z) : Z := (int a - int b)%Z.

(** [math.sqrt(x)] on a binary64 float: the IEEE square root, and a
    [ValueError] when the result is a NaN the argument was not. *)
Definition math_sqrt (x : float) : result float :=
  let r := PrimFloat.sqrt x in
  if PrimFloat.is_nan r && negb (PrimFloat.is_nan x)
  then Raise (ValueError (lit "math domain error"))
  else Return r.

(** [square_root(a)], with [float(a)] the identity on a float argument. *)
Definition square_root (a : float) : result float := math_sqrt a.

End Calculator.

(* ===================================================================== *)
(** ** The specification's notions *)
(* ===================================================================== *)

Module Spec.

(** The comma/trim rule of the specification (4.1, rule 3c): trim the
    string, split on commas, trim each piece, drop the empty pieces. *)
Definition comma_trim_rule (s : str) : list str :=
  filter truthy (map strip (split comma (strip s))).

(** A decoded JSON value that is an array or a string. *)
Definition is_array_or_string (parsed : value) : bool :=
  match parsed with
  | VList _ | VStr _ => true
  | _ => false
  end.

(** A text with no double quote, bracket or brace: what a list of domain
    names separated by commas looks like. *)
Definition opener (c : char) : bool := ((c =? 0x22) || (c =? 0x5B) || (c =? 0x7B))%N.
Definition plain (s : str) : bool := forallb (fun c => negb (opener c)) s.

(** A text whose pieces between commas have at most [n] characters each. *)
Definition pieces_within (n : nat) (s : str) : bool :=
  forallb (fun d => (List.length d <=? n)%nat) (split comma s).

(** The two domain arguments of a tool invocation. *)
Definition call_include_domains (c : Call) : str :=
  match c with
  | WebSearch _ _ _ inc _ | AnswerSearch _ _ _ inc _ | NewsSearch _ _ _ inc _ => inc
  end.
Definition call_exclude_domains (c : Call) : str :=
  match c with
  | WebSearch _ _ _ _ exc | AnswerSearch _ _ _ _ exc | NewsSearch _ _ _ _ exc => exc
  end.

(** The three sections of the formatter's output (4.3), as lists of lines.
    A field is present when [get] finds a true value for its key: not
    [None], not an empty string, not an empty list. *)
Definition filters_section (response : Response) : list str :=
  if truthy_list (included_domains response) || truthy_list (excluded_domains response)
  then
    [lit "Search Filters:"]
    ++ (if truthy_list (included_domains response)
        then [lit "Including domains: "
              ++ join (lit ", ") (the_list (included_domains response))]
        else [])
    ++ (if truthy_list (excluded_domains response)
        then [lit "Excluding domains: "
              ++ join (lit ", ") (the_list (excluded_domains response))]
        else [])
    ++ [[]]
  else [].

Definition source_line (item : ResultItem) : str :=
  lit "- " ++ title item ++ lit ": " ++ url item.

Definition answer_section (response : Response) : list str :=
  if truthy_str (answer response)
  then
    [lit "Answer: " ++ the_str (answer response); []; lit "Sources:"]
    ++ map source_line (results response)
    ++ [[]]
  else [].

Definition result_block (item : ResultItem) : list str :=
  [[]; lit "Title: " ++ title item; lit "URL: " ++ url item;
   lit "Content: " ++ content item]
  ++ (if truthy_str (published_date item)
      then [lit "Published: " ++ the_str (published_date item)]
      else []).

Definition detailed_section (response : Response) : list str :=
  lit "Detailed Results:" :: flat_map result_block (results response).

(** The response of the specification's example: the answer [42] and one
    result with title [T], URL [U] and content [C]. *)
Definition example_response : Response :=
  {| answer := Some (lit "42");
     results := [{| title := lit "T"; url := lit "U"; content := lit "C";
                    published_date := None |}];
     included_domains := None;
     excluded_domains := None |}.


End Spec.
Export Spec.

(* ===================================================================== *)
(** ** Notions used in the proofs *)
(* ===================================================================== *)

Module Notions.

Local Open Scope N_scope.

(** A function applied to the first, or to the last, piece of a split. *)
Definition on_head (f : str -> str) (l : list str) : list str :=
  match l with [] => [] | h :: t => f h :: t end.

Fixpoint on_last (f : str -> str) (l : list str) : list str :=
  match l with
  | [] => []
  | [x] => [f x]
  | x :: r => x :: on_last f r
  end.

(** What a lexeme matcher returns is a comma-free prefix of the text and
    what follows it. *)
Definition lexeme_of (s : str) (o : option (str * str)) : Prop :=
  forall p r, o = Some (p, r) -> s = p ++ r /\ contains comma p = false.

(** A scan step makes progress on [s] when its loops do not use up their
    counters and, when it returns, it leaves a text shorter than [s]. *)
Definition progress {A : Type} (s : str) (x : scan A) : Prop :=
  x <> Spent /\ forall a r, x = Done a r -> (List.length r < List.length s)%nat.

(** An entry of [output] as lines: an entry that starts with a newline is
    an empty line followed by the rest. *)
Definition entry_lines (e : str) : list str :=
  match e with
  | c :: x => if c =? newline then [[]; x] else [e]
  | [] => [e]
  end.

(** The entries [format_results] appends for the sources and for one
    detailed result. *)
Definition source_entry (item : ResultItem) : list str :=
  [lit "- " ++ title item ++ lit ": " ++ url item].

Definition result_entries (item : ResultItem) : list str :=
  [newline :: lit "Title: " ++ title item; lit "URL: " ++ url item;
   lit "Content: " ++ content item]
  ++ (if truthy_str (published_date item)
      then [lit "Published: " ++ the_str (published_date item)]
      else []).

Definition filter_entries (response : Response) : list str :=
  if truthy_list (included_domains response) || truthy_list (excluded_domains response)
  then filters_section response else [].

Definition answer_entries (response : Response) : list str :=
  if truthy_str (answer response)
  then [lit "Answer: " ++ the_str (answer response); newline :: lit "Sources:"]
       ++ flat_map source_entry (results response) ++ [[]]
  else [].

(** A binary64 value that is zero or positive: not a NaN, and no negative
    sign on a non-zero value. *)
Definition nonneg_spec (x : spec_float) : Prop :=
  match x with
  | S754_zero _ | S754_infinity false | S754_finite false _ _ => True
  | _ => False
  end.

End Notions.
Export Notions.

(* ===================================================================== *)
(** ** Further declarations of tavily_server.py, and notions for more properties *)
(* ===================================================================== *)

Module TavilyModels.

(** The constraint [gt=0, le=365] that [NewsSearch] declares on the
    optional [days]. *)
Definition NewsSearch_days_ok (days : option Z) : bool :=
  match days with
  | None => true
  | Some n => ((0 <? n) && (n <=? 365))%Z
  end.

End TavilyModels.
Export TavilyModels.

Module Properties.

Local Open Scope N_scope.

(** A clean domain entry: trimmed, not empty, and without a comma. *)
Definition clean (d : str) : Prop :=
  strip d = d /\ d <> [] /\ contains comma d = false.

(** The strings of a list of values, and whether all its elements are
    strings. *)
Definition is_str (v : value) : bool :=
  match v with VStr _ => true | _ => false end.

Fixpoint strs_of (l : list value) : list str :=
  match l with
  | [] => []
  | VStr s :: r => s :: strs_of r
  | _ :: r => strs_of r
  end.

(** The inputs on which every branch of the normaliser filters its
    elements, each with the sequence of strings it is read as: nothing for
    [None]; the elements of a list of strings; the elements of the array
    of strings that the trimmed text decodes to; and, for a text that the
    decoder rejects, the pieces between its commas, or the text itself
    when it holds no comma. *)
Inductive reads : value -> list str -> Prop :=
| reads_null :
    reads VNone []
| reads_list (l : list str) :
    reads (VList (map VStr l)) l
| reads_json_array (s : str) (l : list str) :
    json_loads (strip s) = Return (VList (map VStr l)) ->
    reads (VStr s) l
| reads_single (s : str) :
    json_loads (strip s) = Raise DecodeError ->
    contains comma s = false ->
    reads (VStr s) [s]
| reads_commas (s : str) :
    json_loads (strip s) = Raise DecodeError ->
    contains comma s = true ->
    reads (VStr s) (split comma s).

(** Whitespace at the start and at the end of a string. *)
Definition starts_space (d : str) : bool :=
  match d with
  | c :: _ => isspace c
  | [] => false
  end.

Fixpoint ends_space (d : str) : bool :=
  match d with
  | [] => false
  | [c] => isspace c
  | _ :: r => ends_space r
  end.

(** [e] is [d] between two runs of whitespace. *)
Definition padded (e d : str) : Prop :=
  exists pre post,
    e = pre ++ d ++ post
    /\ forallb isspace pre = true /\ forallb isspace post = true.

(** A character that stands for itself inside a JSON string literal. *)
Definition json_safe (c : char) : bool :=
  negb ((c =? 0x22) || (c =? 0x5C) || (c <? 0x20)).

(** The JSON text of an array of strings: the quoted elements between
    brackets, separated by a comma and the padding [pad] (empty, or the
    space [json.dumps] writes). *)
Definition json_array_text (pad : str) (l : list str) : str :=
  lit "[" ++ join (comma :: pad) (map quoted l) ++ lit "]".

(** A response with every empty field made absent. *)
Definition drop_empty_str (o : option str) : option str :=
  match o with Some (c :: s) => Some (c :: s) | _ => None end.
Definition drop_empty_list (o : option (list str)) : option (list str) :=
  match o with Some (d :: l) => Some (d :: l) | _ => None end.
Definition drop_empty_fields (response : Response) : Response :=
  {| answer := drop_empty_str (answer response);
     results :=
       map (fun item =>
              {| title := title item; url := url item; content := content item;
                 published_date := drop_empty_str (published_date item) |})
           (results response);
     included_domains := drop_empty_list (included_domains response);
     excluded_domains := drop_empty_list (excluded_domains response) |}.

(** The number of newline characters of a text. *)
Definition count_newlines (s : str) : nat :=
  List.length (filter (N.eqb newline) s).

(** A response none of whose texts holds a newline. *)
Definition one_line (s : str) : Prop := count_newlines s = 0%nat.
Definition one_line_item (item : ResultItem) : Prop :=
  one_line (title item) /\ one_line (url item) /\ one_line (content item)
  /\ one_line (the_str (published_date item)).
Definition one_line_response (response : Response) : Prop :=
  one_line (the_str (answer response))
  /\ Forall one_line_item (results response)
  /\ Forall one_line (the_list (included_domains response))
  /\ Forall one_line (the_list (excluded_domains response)).

(** The number of lines [format_results] writes for a response whose texts
    hold no newline: the filters section, the answer section, the heading
    of the detailed results and the block of every result. *)
Definition result_line_count (item : ResultItem) : nat :=
  4 + (if truthy_str (published_date item) then 1 else 0).

Definition line_count (response : Response) : nat :=
  (if truthy_list (included_domains response) || truthy_list (excluded_domains response)
   then 2 + (if truthy_list (included_domains response) then 1 else 0)
          + (if truthy_list (excluded_domains response) then 1 else 0)
   else 0)
  + (if truthy_str (answer response) then 4 + List.length (results response) else 0)
  + 1
  + list_sum (map result_line_count (results response)).

(** The exceptions the tools' [except] clauses catch: the provider's two
    errors and every [ValueError], json.JSONDecodeError among them. *)
Definition caught (e : exn) : bool :=
  match e with
  | InvalidAPIKeyError _ | UsageLimitExceededError _ => true
  | ValueError _ | JSONDecodeError _ => true
  | AttributeError | RecursionError | OtherError _ => false
  end.

End Properties.
Export Properties.

(* ===================================================================== *)
(** ** Facts and claims *)
(* ===================================================================== *)

Module PyStrFacts.

Local Open Scope N_scope.

Lemma truthy_true (s : str) : truthy s = true <-> s <> [].
Proof. destruct s; simpl; split; congruence. Qed.

Lemma truthy_false (s : str) : truthy s = false <-> s = [].
Proof. destruct s; simpl; split; congruence. Qed.

Lemma lstrip_idem (s : str) : lstrip (lstrip s) = lstrip s.
Proof.
  induction s as [|c r IH]; simpl; [reflexivity|].
  destruct (isspace c) eqn:E; [exact IH|].
  simpl. now rewrite E.
Qed.

Lemma rstrip_cons_nonspace (c : char) (r : str) :
  isspace c = false -> rstrip (c :: r) = c :: rstrip r.
Proof. intros E. simpl. rewrite E. now destruct (rstrip r). Qed.

Lemma rstrip_cons_space (c : char) (r : str) :
  isspace c = true ->
  rstrip (c :: r) = match rstrip r with [] => [] | _ :: _ => c :: rstrip r end.
Proof. intros E. simpl. rewrite E. now destruct (rstrip r). Qed.

Lemma rstrip_idem (s : str) : rstrip (rstrip s) = rstrip s.
Proof.
  induction s as [|c r IH]; [reflexivity|].
  destruct (isspace c) eqn:E.
  - rewrite (rstrip_cons_space c r E).
    destruct (rstrip r) as [|d t] eqn:R; [reflexivity|].
    rewrite (rstrip_cons_space c _ E), IH. reflexivity.
  - rewrite (rstrip_cons_nonspace c r E), (rstrip_cons_nonspace c _ E), IH.
    reflexivity.
Qed.

Lemma lstrip_rstrip (s : str) : lstrip (rstrip s) = rstrip (lstrip s).
Proof.
  induction s as [|c r IH]; [reflexivity|].
  destruct (isspace c) eqn:E.
  - rewrite (rstrip_cons_space c r E). simpl lstrip at 2. rewrite E, <- IH.
    destruct (rstrip r) eqn:R; [reflexivity|].
    simpl. now rewrite E.
  - rewrite (rstrip_cons_nonspace c r E). simpl. rewrite E.
    now rewrite (rstrip_cons_nonspace c r E).
Qed.

Lemma strip_idem (s : str) : strip (strip s) = strip s.
Proof.
  unfold strip.
  rewrite <- (lstrip_rstrip (rstrip (lstrip s))), rstrip_idem.
  rewrite lstrip_rstrip, lstrip_idem. reflexivity.
Qed.

Lemma strip_lstrip (s : str) : strip (lstrip s) = strip s.
Proof. unfold strip. now rewrite lstrip_idem. Qed.

Lemma strip_rstrip (s : str) : strip (rstrip s) = strip s.
Proof. unfold strip. now rewrite lstrip_rstrip, rstrip_idem. Qed.

Lemma isspace_comma : isspace comma = false.
Proof. reflexivity. Qed.

(** [split] never returns the empty list. *)
Lemma split_cons (sep : char) (s : str) : exists h t, split sep s = h :: t.
Proof.
  induction s as [|c r [h [t IH]]]; simpl; [now eauto|].
  destruct (c =? sep); [now eauto|]. rewrite IH. eauto.
Qed.

Lemma split_step (sep c : char) (r : str) :
  split sep (c :: r) =
  if c =? sep then [] :: split sep r else on_head (cons c) (split sep r).
Proof.
  simpl. destruct (c =? sep); [reflexivity|].
  now destruct (split_cons sep r) as [h [t ->]].
Qed.

Lemma split_single_nil (sep : char) (s : str) : split sep s = [[]] -> s = [].
Proof.
  destruct s as [|c r]; [reflexivity|].
  rewrite split_step. destruct (c =? sep).
  - destruct (split_cons sep r) as [h [t ->]]. discriminate.
  - destruct (split_cons sep r) as [h [t ->]]. discriminate.
Qed.

Lemma split_lstrip (sep : char) (s : str) :
  isspace sep = false -> split sep (lstrip s) = on_head lstrip (split sep s).
Proof.
  intros Hsep. induction s as [|c r IH]; [reflexivity|].
  rewrite split_step. simpl lstrip. destruct (isspace c) eqn:E.
  - destruct (N.eqb_spec c sep) as [->|_]; [congruence|].
    rewrite IH. destruct (split_cons sep r) as [h [t ->]]. simpl.
    now rewrite E.
  - rewrite split_step. destruct (c =? sep); [reflexivity|].
    destruct (split_cons sep r) as [h [t ->]]. simpl. now rewrite E.
Qed.

Lemma split_rstrip (sep : char) (s : str) :
  isspace sep = false -> split sep (rstrip s) = on_last rstrip (split sep s).
Proof.
  intros Hsep. induction s as [|c r IH]; [reflexivity|].
  destruct (split_cons sep r) as [h [t Hr]].
  rewrite (split_step sep c r), Hr. rewrite Hr in IH.
  destruct (isspace c) eqn:E.
  - rewrite (rstrip_cons_space c r E).
    destruct (N.eqb_spec c sep) as [->|Hc]; [congruence|].
    apply N.eqb_neq in Hc.
    destruct (rstrip r) as [|d r'] eqn:R.
    + destruct t as [|x t']; simpl in IH.
      * injection IH as IH. cbn [on_head on_last].
        rewrite (rstrip_cons_space c h E), <- IH. reflexivity.
      * destruct t'; discriminate.
    + rewrite (split_step sep c (d :: r')), Hc, IH.
      destruct t as [|x t']; [|reflexivity].
      cbn [on_head on_last] in *. rewrite (rstrip_cons_space c h E).
      destruct (rstrip h) eqn:Rh; [|reflexivity].
      apply split_single_nil in IH. discriminate.
  - rewrite (rstrip_cons_nonspace c r E), (split_step sep c (rstrip r)), IH.
    destruct (c =? sep).
    + reflexivity.
    + destruct t as [|x t']; [|reflexivity].
      simpl. rewrite E. now destruct (rstrip h).
Qed.

Lemma map_strip_on_head (l : list str) :
  map strip (on_head lstrip l) = map strip l.
Proof. destruct l; simpl; [reflexivity|]. now rewrite strip_lstrip. Qed.

Lemma map_strip_on_last (l : list str) :
  map strip (on_last rstrip l) = map strip l.
Proof.
  induction l as [|x r IH]; [reflexivity|].
  destruct r as [|y r'].
  - simpl. now rewrite strip_rstrip.
  - change (on_last rstrip (x :: y :: r')) with (x :: on_last rstrip (y :: r')).
    simpl map. simpl map in IH. now rewrite IH.
Qed.

(** Trimming the text before splitting changes no trimmed piece. *)
Lemma map_strip_split_strip (sep : char) (s : str) :
  isspace sep = false ->
  map strip (split sep (strip s)) = map strip (split sep s).
Proof.
  intros Hsep. unfold strip.
  rewrite (split_rstrip sep _ Hsep), map_strip_on_last.
  rewrite (split_lstrip sep _ Hsep), map_strip_on_head. reflexivity.
Qed.

Lemma contains_lstrip (c : char) (s : str) :
  isspace c = false -> contains c (lstrip s) = contains c s.
Proof.
  intros Hc. induction s as [|x r IH]; [reflexivity|].
  simpl. destruct (isspace x) eqn:E; [|reflexivity].
  rewrite IH. destruct (N.eqb_spec c x) as [->|_]; [congruence|reflexivity].
Qed.

Lemma contains_rstrip (c : char) (s : str) :
  isspace c = false -> contains c (rstrip s) = contains c s.
Proof.
  intros Hc. induction s as [|x r IH]; [reflexivity|].
  destruct (isspace x) eqn:E.
  - rewrite (rstrip_cons_space x r E).
    assert (Hx : (c =? x) = false).
    { destruct (N.eqb_spec c x) as [->|_]; [congruence|reflexivity]. }
    simpl. rewrite Hx. simpl. rewrite <- IH.
    destruct (rstrip r); [reflexivity|]. simpl. now rewrite Hx.
  - rewrite (rstrip_cons_nonspace x r E). simpl. now rewrite IH.
Qed.

Lemma contains_strip (c : char) (s : str) :
  isspace c = false -> contains c (strip s) = contains c s.
Proof.
  intros Hc. unfold strip.
  now rewrite (contains_rstrip c _ Hc), (contains_lstrip c _ Hc).
Qed.

End PyStrFacts.

Module JsonFacts.

Import PyStrFacts.
Local Open Scope N_scope.

Lemma contains_app (c : char) (p r : str) :
  contains c (p ++ r) = contains c p || contains c r.
Proof. apply existsb_app. Qed.

Lemma contains_cons (c x : char) (r : str) :
  contains c (x :: r) = (c =? x) || contains c r.
Proof. reflexivity. Qed.

Lemma strip_prefix_app (p s r : str) : strip_prefix p s = Some r -> s = p ++ r.
Proof.
  revert s. induction p as [|a p IH]; intros s H; simpl in H.
  - now injection H as ->.
  - destruct s as [|b s]; [discriminate|].
    destruct (N.eqb_spec a b) as [->|_]; [|discriminate].
    simpl. f_equal. now apply IH.
Qed.

Lemma is_digit_not_comma (c : char) : is_digit c = true -> (comma =? c) = false.
Proof.
  unfold is_digit, comma. intros H. apply andb_true_iff in H.
  destruct H as [H1 H2]. apply N.leb_le in H1. apply N.eqb_neq. lia.
Qed.

Lemma span_digits_app (s d r : str) :
  span_digits s = (d, r) -> s = d ++ r /\ contains comma d = false.
Proof.
  revert d r. induction s as [|c s IH]; intros d r H; simpl in H.
  - injection H as <- <-. now split.
  - destruct (is_digit c) eqn:E.
    + destruct (span_digits s) as [d' r'] eqn:Sp. injection H as <- <-.
      destruct (IH d' r' eq_refl) as [-> Hd]. split; [reflexivity|].
      now rewrite contains_cons, (is_digit_not_comma c E), Hd.
    + injection H as <- <-. now split.
Qed.

Lemma match_integer_lexeme (s : str) : lexeme_of s (match_integer s).
Proof.
  intros p r. unfold match_integer.
  assert (Hgen : forall sign t, contains comma sign = false ->
            match t with
            | [] => None
            | c :: r' =>
                if c =? 0x30 then Some (sign ++ [c], r')
                else if is_digit c then
                  let (d, r'') := span_digits r' in Some (sign ++ c :: d, r'')
                else None
            end = Some (p, r) ->
            sign ++ t = p ++ r /\ contains comma p = false).
  { intros sign t Hsign H. destruct t as [|c t]; [discriminate|].
    destruct (N.eqb_spec c 0x30) as [->|_].
    - injection H as <- <-. split; [now rewrite <- app_assoc|].
      rewrite contains_app, Hsign. reflexivity.
    - destruct (is_digit c) eqn:E; [|discriminate].
      destruct (span_digits t) as [d r''] eqn:Sp. injection H as <- <-.
      destruct (span_digits_app _ _ _ Sp) as [-> Hd]. split.
      + now rewrite <- app_assoc.
      + rewrite contains_app, Hsign, contains_cons.
        now rewrite (is_digit_not_comma c E), Hd. }
  destruct s as [|c t].
  - intros H. now apply (Hgen [] []).
  - destruct (N.eqb_spec c 0x2D) as [->|_].
    + intros H. now apply (Hgen [0x2D] t).
    + intros H. now apply (Hgen [] (c :: t)).
Qed.

Lemma match_frac_lexeme (s : str) : lexeme_of s (match_frac s).
Proof.
  intros p r H. unfold match_frac in H.
  destruct s as [|c [|d t]]; try discriminate.
  destruct (N.eqb_spec c 0x2E) as [->|_]; [|discriminate]. simpl in H.
  destruct (is_digit d) eqn:E; [|discriminate].
  destruct (span_digits t) as [ds r'] eqn:Sp. injection H as <- <-.
  destruct (span_digits_app _ _ _ Sp) as [-> Hd]. split; [reflexivity|].
  now rewrite !contains_cons, (is_digit_not_comma d E), Hd.
Qed.

Lemma match_exp_lexeme (s : str) : lexeme_of s (match_exp s).
Proof.
  intros p r H. unfold match_exp in H.
  destruct s as [|e t]; [discriminate|].
  destruct ((e =? 0x65) || (e =? 0x45)) eqn:Ee; [|discriminate].
  assert (He : (comma =? e) = false).
  { apply orb_true_iff in Ee. unfold comma.
    destruct Ee as [Ee|Ee]; apply N.eqb_eq in Ee; now subst e. }
  assert (Hgen : forall sg t', contains comma sg = false ->
            match span_digits t' with
            | ([], _) => None
            | (ds, r2) => Some (e :: sg ++ ds, r2)
            end = Some (p, r) ->
            e :: sg ++ t' = p ++ r /\ contains comma p = false).
  { intros sg t' Hsg H'. destruct (span_digits t') as [ds r2] eqn:Sp.
    destruct (span_digits_app _ _ _ Sp) as [-> Hd].
    destruct ds as [|d ds]; [discriminate|]. injection H' as <- <-. split.
    - simpl. now rewrite <- app_assoc.
    - now rewrite contains_cons, He, contains_app, Hsg, Hd. }
  destruct t as [|c t1].
  - now apply (Hgen [] []).
  - destruct ((c =? 0x2D) || (c =? 0x2B)) eqn:Ec.
    + apply (Hgen [c] t1); [|exact H].
      apply orb_true_iff in Ec. unfold comma.
      destruct Ec as [Ec|Ec]; apply N.eqb_eq in Ec; now subst c.
    + now apply (Hgen [] (c :: t1)).
Qed.

Lemma match_number_prefix (s : str) (v : result value) (r : str) :
  match_number s = Some (v, r) ->
  exists p, s = p ++ r /\ contains comma p = false.
Proof.
  unfold match_number. intros H.
  destruct (match_integer s) as [[i r0]|] eqn:Hi; [|discriminate].
  destruct (match_integer_lexeme s _ _ Hi) as [Hs Ci].
  destruct (match match_frac r0 with Some (f, r1) => (f, r1) | None => ([], r0) end)
    as [f r1] eqn:Ef.
  assert (Hf : r0 = f ++ r1 /\ contains comma f = false).
  { destruct (match_frac r0) as [[f' r1']|] eqn:F.
    - injection Ef as <- <-. exact (match_frac_lexeme r0 _ _ F).
    - injection Ef as <- <-. now split. }
  destruct (match match_exp r1 with Some (e, r2) => (e, r2) | None => ([], r1) end)
    as [e r2] eqn:Ee.
  assert (He : r1 = e ++ r2 /\ contains comma e = false).
  { destruct (match_exp r1) as [[e' r2']|] eqn:F.
    - injection Ee as <- <-. exact (match_exp_lexeme r1 _ _ F).
    - injection Ee as <- <-. now split. }
  destruct Hf as [Hr0 Cf], He as [Hr1 Ce].
  assert (r2 = r) as <- by (destruct f, e; now injection H).
  exists (i ++ f ++ e). split.
  - rewrite Hs, Hr0, Hr1. now rewrite <- !app_assoc.
  - now rewrite !contains_app, Ci, Cf, Ce.
Qed.

(** An atom is read from a comma-free prefix of the text. *)
Lemma scan_atom_prefix (s : str) (v : value) (r : str) :
  scan_atom s = Done v r ->
  exists p, s = p ++ r /\ contains comma p = false.
Proof.
  unfold scan_atom. intros H.
  repeat match type of H with
  | match strip_prefix ?p s with _ => _ end = _ =>
      let E := fresh "E" in
      destruct (strip_prefix p s) as [r'|] eqn:E;
      [ injection H as <- <-; exists p; split;
        [ now apply strip_prefix_app | reflexivity ] | ]
  | match match_number s with _ => _ end = _ =>
      let E := fresh "E" in
      destruct (match_number s) as [[[v'|e'] r']|] eqn:E;
      [ injection H as <- <-; now apply (match_number_prefix s _ _ E)
      | discriminate | ]
  end.
  discriminate.
Qed.

Lemma scan_atom_not_spent (s : str) : scan_atom s <> Spent.
Proof.
  unfold scan_atom.
  repeat match goal with
  | |- match ?o with _ => _ end <> _ => destruct o as [[[] ?]|]
  | |- match ?o with _ => _ end <> _ => destruct o
  end; discriminate.
Qed.

Lemma length_digits_of (i : str) :
  (List.length (digits_of i) <= List.length i)%nat.
Proof.
  destruct i as [|c ds]; [apply Nat.le_refl|].
  unfold digits_of. destruct (c =? 45); simpl; lia.
Qed.

(** An atom raises only on an integer with more digits than the limit. *)
Lemma scan_atom_stop (s : str) (e : exn) :
  scan_atom s = Stop e ->
  exists p r, s = p ++ r /\ contains comma p = false
              /\ (int_max_str_digits < List.length p)%nat.
Proof.
  unfold scan_atom. intros H.
  repeat match type of H with
  | match strip_prefix ?p s with _ => _ end = _ =>
      destruct (strip_prefix p s); [discriminate|]
  end.
  destruct (match_number s) as [[[v'|e'] r']|] eqn:E; [discriminate| |].
  - clear H. unfold match_number in E.
    destruct (match_integer s) as [[i r0]|] eqn:Hi; [|discriminate].
    destruct (match_integer_lexeme s _ _ Hi) as [Hs Hc].
    exists i, r0. split; [exact Hs|]. split; [exact Hc|].
    destruct (match match_frac r0 with Some (f, r1) => (f, r1) | None => ([], r0) end)
      as [f r1].
    destruct (match match_exp r1 with Some (x, r2) => (x, r2) | None => ([], r1) end)
      as [x r2].
    destruct f; [destruct x|]; try discriminate.
    unfold int_of_literal in E.
    destruct (Nat.leb_spec (List.length (digits_of i)) int_max_str_digits) as [L|L];
      [discriminate|].
    pose proof (length_digits_of i). lia.
  - repeat match type of H with
    | match strip_prefix ?p s with _ => _ end = _ =>
        destruct (strip_prefix p s); [discriminate|]
    end.
    discriminate.
Qed.

Lemma contains_skip_ws (s : str) :
  contains comma (skip_ws s) = contains comma s.
Proof.
  induction s as [|c r IH]; [reflexivity|]. cbn [skip_ws].
  destruct (is_ws c) eqn:E; [|reflexivity].
  rewrite IH, contains_cons.
  destruct (N.eqb_spec comma c) as [<-|_]; [discriminate|reflexivity].
Qed.

(** A text whose first significant character opens neither a string, an
    array nor an object, and which holds a comma, is not JSON: an atom stops
    before the comma, and what follows it is extra data.  The atom is read
    without an error when no comma-free prefix of the text is longer than
    the limit on the digits of an [int]. *)
Lemma decode_comma_fails (s : str) :
  contains comma s = true ->
  match skip_ws s with c :: _ => opener c = false | [] => True end ->
  (forall p r, skip_ws s = p ++ r -> contains comma p = false ->
               (List.length p <= int_max_str_digits)%nat) ->
  decode s = Fail.
Proof.
  intros Hc Ho Hl. unfold decode. rewrite <- contains_skip_ws in Hc.
  destruct (skip_ws s) as [|c t] eqn:Hs; [reflexivity|].
  unfold opener in Ho. apply orb_false_iff in Ho. destruct Ho as [Ho H3].
  apply orb_false_iff in Ho. destruct Ho as [H1 H2].
  assert (E : scan_once recursion_limit (c :: t) = scan_atom (c :: t)).
  { destruct recursion_limit; cbn [scan_once]; now rewrite H1, H3, H2. }
  rewrite E.
  destruct (scan_atom (c :: t)) as [v r| |e|] eqn:Ha.
  - destruct (scan_atom_prefix (c :: t) _ _ Ha) as [p [Hp Cp]].
    rewrite Hp, contains_app, Cp in Hc. cbn [orb] in Hc.
    rewrite <- contains_skip_ws in Hc.
    destruct (skip_ws r); [discriminate|reflexivity].
  - reflexivity.
  - destruct (scan_atom_stop (c :: t) e Ha) as [p [r [Hp [Cp L]]]].
    specialize (Hl p r Hp Cp). lia.
  - now apply scan_atom_not_spent in Ha.
Qed.

Lemma plain_lstrip (s : str) : plain s = true -> plain (lstrip s) = true.
Proof.
  induction s as [|c r IH]; [reflexivity|]. simpl.
  intros H. destruct (isspace c); [|exact H].
  apply andb_true_iff in H. now apply IH.
Qed.

Lemma plain_rstrip (s : str) : plain s = true -> plain (rstrip s) = true.
Proof.
  induction s as [|c r IH]; [reflexivity|].
  intros H. simpl in H. apply andb_true_iff in H. destruct H as [Hc Hr].
  specialize (IH Hr). simpl. destruct (rstrip r) as [|d r'] eqn:R.
  - destruct (isspace c); [reflexivity|]. simpl. now rewrite Hc.
  - change (plain (c :: d :: r')) with (negb (opener c) && plain (d :: r')).
    now rewrite Hc, IH.
Qed.

Lemma plain_skip_ws (s : str) : plain s = true -> plain (skip_ws s) = true.
Proof.
  induction s as [|c r IH]; [reflexivity|]. simpl.
  intros H. destruct (is_ws c); [|exact H].
  apply andb_true_iff in H. now apply IH.
Qed.

Lemma lstrip_suffix (s : str) : exists a, s = a ++ lstrip s.
Proof.
  induction s as [|c r [a IH]]; [now exists []|].
  simpl. destruct (isspace c); [|now exists []].
  exists (c :: a). simpl. now rewrite <- IH.
Qed.

Lemma rstrip_prefix (s : str) : exists b, s = rstrip s ++ b.
Proof.
  induction s as [|c r [b IH]]; [now exists []|].
  simpl. destruct (rstrip r) as [|d r'].
  - destruct (isspace c); [now exists (c :: r)|now exists r].
  - exists b. simpl. simpl in IH. now rewrite <- IH.
Qed.

Lemma skip_ws_suffix (s : str) : exists a, s = a ++ skip_ws s.
Proof.
  induction s as [|c r [a IH]]; [now exists []|].
  simpl. destruct (is_ws c); [|now exists []].
  exists (c :: a). simpl. now rewrite <- IH.
Qed.

(** A comma-free prefix of a text lies inside its first piece. *)
Lemma split_prefix_piece (p r : str) :
  contains comma p = false ->
  exists h t, split comma (p ++ r) = h :: t
              /\ (List.length p <= List.length h)%nat.
Proof.
  induction p as [|c p IH]; intros Hc.
  - destruct (split_cons comma r) as [h [t E]]. exists h, t.
    split; [exact E|apply Nat.le_0_l].
  - rewrite contains_cons in Hc. apply orb_false_iff in Hc.
    destruct Hc as [Hc Hp]. destruct (IH Hp) as [h [t [E L]]].
    change ((c :: p) ++ r) with (c :: (p ++ r)).
    rewrite split_step, E, N.eqb_sym, Hc.
    exists (c :: h), t. split; [reflexivity|simpl; lia].
Qed.

(** A comma-free part of a text lies inside one of its pieces. *)
Lemma split_infix_piece (a p r : str) :
  contains comma p = false ->
  Exists (fun h => (List.length p <= List.length h)%nat)
         (split comma (a ++ p ++ r)).
Proof.
  intros Hc. induction a as [|c a IH].
  - destruct (split_prefix_piece p r Hc) as [h [t [E L]]].
    simpl. rewrite E. now constructor.
  - change ((c :: a) ++ p ++ r) with (c :: (a ++ p ++ r)).
    rewrite split_step. destruct (c =? comma); [now constructor 2|].
    destruct (split_cons comma (a ++ p ++ r)) as [h [t E]].
    rewrite E in IH |- *. inversion IH as [x l L|x l L]; subst.
    + constructor. simpl. lia.
    + now constructor 2.
Qed.

Lemma pieces_within_infix (n : nat) (a p r : str) :
  pieces_within n (a ++ p ++ r) = true -> contains comma p = false ->
  (List.length p <= n)%nat.
Proof.
  intros Hw Hc. unfold pieces_within in Hw.
  rewrite forallb_forall in Hw.
  pose proof (split_infix_piece a p r Hc) as E.
  apply Exists_exists in E. destruct E as [h [Hin L]].
  specialize (Hw h Hin). apply Nat.leb_le in Hw. lia.
Qed.

(** A plain text with a comma, none of whose pieces is longer than the
    limit on the digits of an [int], is rejected by the JSON decoder,
    trimmed or not. *)
Lemma json_loads_plain_commas (s : str) :
  plain s = true -> contains comma s = true ->
  pieces_within int_max_str_digits s = true ->
  json_loads (strip s) = Raise DecodeError.
Proof.
  intros Hp Hc Hw. unfold json_loads.
  rewrite decode_comma_fails; [reflexivity| | |].
  - now rewrite (contains_strip comma s isspace_comma).
  - assert (H : plain (skip_ws (strip s)) = true).
    { apply plain_skip_ws. unfold strip. now apply plain_rstrip, plain_lstrip. }
    destruct (skip_ws (strip s)); [exact I|].
    simpl in H. apply andb_true_iff in H. now apply negb_true_iff.
  - intros p r E Cp.
    destruct (skip_ws_suffix (strip s)) as [a1 E1].
    destruct (rstrip_prefix (lstrip s)) as [b E2].
    destruct (lstrip_suffix s) as [a2 E3].
    apply (pieces_within_infix int_max_str_digits (a2 ++ a1) p (r ++ b)); [|exact Cp].
    rewrite <- Hw. f_equal. symmetry.
    transitivity (a2 ++ lstrip s); [exact E3|].
    rewrite <- !app_assoc. f_equal.
    transitivity (rstrip (lstrip s) ++ b); [exact E2|].
    rewrite !app_assoc. f_equal.
    transitivity (a1 ++ skip_ws (strip s)); [exact E1|].
    now rewrite E, app_assoc.
Qed.

End JsonFacts.

Module DecoderTermination.

Import PyStrFacts JsonFacts.
Local Open Scope nat_scope.

Lemma progress_fail {A : Type} (s : str) : progress s (@Fail A).
Proof. split; [discriminate|]. intros a r H. discriminate. Qed.

Lemma progress_done {A : Type} (s : str) (a : A) (r : str) :
  List.length r < List.length s -> progress s (Done a r).
Proof.
  intros H. split; [discriminate|]. intros a' r' E. now injection E as <- <-.
Qed.

Lemma skip_ws_length (s : str) : List.length (skip_ws s) <= List.length s.
Proof.
  induction s as [|c r IH]; simpl; [lia|].
  destruct (is_ws c); simpl; lia.
Qed.

Lemma skip_ws_cons_length (s : str) (c : char) (r : str) :
  skip_ws s = c :: r -> List.length r < List.length s.
Proof.
  intros H. pose proof (skip_ws_length s) as L. rewrite H in L. simpl in L. lia.
Qed.

Lemma cons_char_shorter (c : char) (o : option (str * str)) (n : nat) :
  (forall x rest, o = Some (x, rest) -> List.length rest < n) ->
  forall x rest, cons_char c o = Some (x, rest) -> List.length rest < n.
Proof.
  intros H x rest E. destruct o as [[x' rest']|]; [|discriminate].
  injection E as <- <-. now apply (H x').
Qed.

(** [scanstring] consumes at least the closing quote. *)
Lemma scanstring_shorter (s x rest : str) :
  scanstring s = Some (x, rest) -> List.length rest < List.length s.
Proof.
  remember (List.length s) as n eqn:Hn. revert s x rest Hn.
  induction n as [n IH] using lt_wf_ind. intros s x rest Hn H.
  assert (Hrec : forall t, List.length t < n ->
            forall x' rest', scanstring t = Some (x', rest') ->
                             List.length rest' < n).
  { intros t Ht x' rest' E.
    specialize (IH (List.length t) Ht t x' rest' eq_refl E). lia. }
  destruct s as [|c r]; [discriminate|]. simpl in Hn. simpl in H.
  destruct (N.eqb c 34); [injection H as <- <-; lia|].
  destruct (N.eqb c 92).
  - destruct r as [|e r1]; [discriminate|]. simpl in Hn.
    destruct (N.eqb e 117).
    + destruct r1 as [|h1 [|h2 [|h3 [|h4 r2]]]]; try discriminate.
      simpl in Hn.
      destruct (hex4 h1 h2 h3 h4) as [u|]; [|discriminate].
      destruct (low_escape u r2) as [lo|].
      * destruct r2 as [|a1 [|a2 [|a3 [|a4 [|a5 [|a6 r3]]]]]];
          simpl in Hn;
          (eapply cons_char_shorter; [|exact H]); apply Hrec; simpl; lia.
      * eapply cons_char_shorter; [|exact H]. apply Hrec. lia.
    + destruct (escape e) as [y|]; [|discriminate].
      eapply cons_char_shorter; [|exact H]. apply Hrec. lia.
  - destruct (N.ltb c 32); [discriminate|].
    eapply cons_char_shorter; [|exact H]. apply Hrec. lia.
Qed.

Lemma strip_prefix_length (p s r : str) :
  strip_prefix p s = Some r -> List.length s = List.length p + List.length r.
Proof.
  intros H. apply strip_prefix_app in H. subst s. apply length_app.
Qed.

Lemma match_integer_nonempty (s p r : str) :
  match_integer s = Some (p, r) -> p <> [].
Proof.
  unfold match_integer.
  destruct (match s with
            | [] => ([], s)
            | c :: r0 => if N.eqb c 45 then ([c], r0) else ([], s)
            end) as [sign t].
  destruct t as [|c t]; [discriminate|].
  destruct (N.eqb c 48).
  - intros H. injection H as <- <-. now destruct sign.
  - destruct (is_digit c); [|discriminate].
    destruct (span_digits t). intros H. injection H as <- <-. now destruct sign.
Qed.

Lemma match_number_shorter (s : str) (v : result value) (r : str) :
  match_number s = Some (v, r) -> List.length r < List.length s.
Proof.
  intros H. unfold match_number in H.
  destruct (match_integer s) as [[i r0]|] eqn:Hi; [|discriminate].
  destruct (match_integer_lexeme s _ _ Hi) as [Hs _].
  pose proof (match_integer_nonempty s _ _ Hi) as Hne.
  destruct (match match_frac r0 with Some (f, r1) => (f, r1) | None => ([], r0) end)
    as [f r1] eqn:Ef.
  assert (Hf : r0 = f ++ r1).
  { destruct (match_frac r0) as [[f' r1']|] eqn:F.
    - injection Ef as <- <-. exact (proj1 (match_frac_lexeme r0 _ _ F)).
    - now injection Ef as <- <-. }
  destruct (match match_exp r1 with Some (e, r2) => (e, r2) | None => ([], r1) end)
    as [e r2] eqn:Ee.
  assert (He : r1 = e ++ r2).
  { destruct (match_exp r1) as [[e' r2']|] eqn:F.
    - injection Ee as <- <-. exact (proj1 (match_exp_lexeme r1 _ _ F)).
    - now injection Ee as <- <-. }
  assert (r2 = r) as <- by (destruct f, e; now injection H).
  rewrite Hs, Hf, He, !length_app.
  destruct i; [congruence|]. simpl. lia.
Qed.

Lemma scan_atom_progress (s : str) : progress s (scan_atom s).
Proof.
  split; [apply scan_atom_not_spent|].
  unfold scan_atom. intros v r H.
  repeat match type of H with
  | match strip_prefix ?p s with _ => _ end = _ =>
      let E := fresh "E" in
      destruct (strip_prefix p s) as [r'|] eqn:E;
      [ injection H as <- <-; apply strip_prefix_length in E;
        rewrite E; simpl; lia | ]
  | match match_number s with _ => _ end = _ =>
      let E := fresh "E" in
      destruct (match_number s) as [[[v'|e'] r']|] eqn:E;
      [ injection H as <- <-; now apply (match_number_shorter s _ _ E)
      | discriminate | ]
  end.
  discriminate.
Qed.

Lemma progress_stop {A : Type} (s : str) (e : exn) : progress s (@Stop A e).
Proof. split; [discriminate|]. intros a r H. discriminate. Qed.

Section ContainerProgress.

Variable scan_value : str -> scan value.
Hypothesis scan_value_progress : forall s, progress s (scan_value s).

Lemma array_items_progress (n : nat) (s : str) :
  List.length s < n -> progress s (array_items scan_value n s).
Proof.
  revert s. induction n as [|n IH]; intros s Hn; [lia|].
  simpl. destruct (scan_value_progress s) as [Hd Hr].
  destruct (scan_value s) as [v r| |e|];
    [|apply progress_fail|apply progress_stop|congruence].
  specialize (Hr v r eq_refl).
  destruct (skip_ws r) as [|c r1] eqn:Hw; [apply progress_fail|].
  apply skip_ws_cons_length in Hw.
  destruct (N.eqb c 93); [apply progress_done; lia|].
  destruct (N.eqb c 44); [|apply progress_fail].
  pose proof (skip_ws_length r1) as L1.
  destruct (IH (skip_ws r1)) as [Hd' Hr']; [lia|].
  destruct (array_items scan_value n (skip_ws r1)) as [vs r2| |e|];
    [|apply progress_fail|apply progress_stop|congruence].
  specialize (Hr' vs r2 eq_refl). apply progress_done. lia.
Qed.

Lemma JSONArray_progress (s : str) : progress s (JSONArray scan_value s).
Proof.
  unfold JSONArray. pose proof (skip_ws_length s) as L.
  destruct (skip_ws s) as [|c r] eqn:Hw; [apply progress_fail|].
  destruct (N.eqb c 93); [apply progress_done; simpl in L; lia|].
  destruct (array_items_progress (S (List.length s)) (c :: r)) as [Hd Hr];
    [lia|].
  destruct (array_items scan_value (S (List.length s)) (c :: r)) as [vs r2| |e|];
    [|apply progress_fail|apply progress_stop|congruence].
  specialize (Hr vs r2 eq_refl). apply progress_done. lia.
Qed.

Lemma object_items_progress (n : nat) (s : str) :
  List.length s < n -> progress s (object_items scan_value n s).
Proof.
  revert s. induction n as [|n IH]; intros s Hn; [lia|].
  simpl. destruct (scanstring s) as [[key r]|] eqn:Hkey; [|apply progress_fail].
  apply scanstring_shorter in Hkey.
  destruct (skip_ws r) as [|c r1] eqn:Hw; [apply progress_fail|].
  apply skip_ws_cons_length in Hw.
  destruct (N.eqb c 58); [|apply progress_fail].
  pose proof (skip_ws_length r1) as L1.
  destruct (scan_value_progress (skip_ws r1)) as [Hd Hr].
  destruct (scan_value (skip_ws r1)) as [v r2| |e|];
    [|apply progress_fail|apply progress_stop|congruence].
  specialize (Hr v r2 eq_refl).
  destruct (skip_ws r2) as [|d r3] eqn:Hw2; [apply progress_fail|].
  apply skip_ws_cons_length in Hw2.
  destruct (N.eqb d 125); [apply progress_done; lia|].
  destruct (N.eqb d 44); [|apply progress_fail].
  destruct (skip_ws r3) as [|q r4] eqn:Hw3; [apply progress_fail|].
  apply skip_ws_cons_length in Hw3.
  destruct (N.eqb q 34); [|apply progress_fail].
  destruct (IH r4) as [Hd' Hr']; [lia|].
  destruct (object_items scan_value n r4) as [kvs r5| |e|];
    [|apply progress_fail|apply progress_stop|congruence].
  specialize (Hr' kvs r5 eq_refl). apply progress_done. lia.
Qed.

Lemma JSONObject_progress (s : str) : progress s (JSONObject scan_value s).
Proof.
  unfold JSONObject.
  destruct (skip_ws s) as [|c r] eqn:Hw; [apply progress_fail|].
  apply skip_ws_cons_length in Hw.
  destruct (N.eqb c 125); [apply progress_done; lia|].
  destruct (N.eqb c 34); [|apply progress_fail].
  destruct (object_items_progress (S (List.length s)) r) as [Hd Hr]; [lia|].
  destruct (object_items scan_value (S (List.length s)) r) as [kvs r2| |e|];
    [|apply progress_fail|apply progress_stop|congruence].
  specialize (Hr kvs r2 eq_refl). apply progress_done. lia.
Qed.

End ContainerProgress.

(** At every nesting depth the loops of the decoder end before their
    counters do, and a value is read from at least one character. *)
Lemma scan_once_progress (depth : nat) (s : str) :
  progress s (scan_once depth s).
Proof.
  revert s. induction depth as [|d IH]; intros s;
    (destruct s as [|c r]; [apply progress_fail|]); cbn [scan_once];
    (destruct (N.eqb c 34);
     [ destruct (scanstring r) as [[x rest]|] eqn:Hx; [|apply progress_fail];
       apply scanstring_shorter in Hx; apply progress_done; simpl; lia |]).
  - destruct (N.eqb c 123); [apply progress_stop|].
    destruct (N.eqb c 91); [apply progress_stop|].
    apply scan_atom_progress.
  - destruct (N.eqb c 123).
    { destruct (JSONObject_progress (scan_once d) IH r) as [H1 H2].
      split; [exact H1|]. intros a r' E. specialize (H2 a r' E). simpl. lia. }
    destruct (N.eqb c 91).
    { destruct (JSONArray_progress (scan_once d) IH r) as [H1 H2].
      split; [exact H1|]. intros a r' E. specialize (H2 a r' E). simpl. lia. }
    apply scan_atom_progress.
Qed.

Lemma decode_not_spent (s : str) : decode s <> Spent.
Proof.
  unfold decode.
  destruct (scan_once_progress recursion_limit (skip_ws s)) as [H _].
  destruct (scan_once recursion_limit (skip_ws s)) as [v r| |e|];
    [|discriminate|discriminate|congruence].
  destruct (skip_ws r); discriminate.
Qed.

(** [json.loads] returns a value, raises the decoding error when the text
    is not JSON, or lets through what the decoder raised: the fourth case
    of [json_loads] is never taken. *)
Lemma json_loads_total (s : str) :
  match decode s with
  | Done v _ => json_loads s = Return v
  | Fail => json_loads s = Raise DecodeError
  | Stop e => json_loads s = Raise (Passed e)
  | Spent => False
  end.
Proof.
  unfold json_loads. pose proof (decode_not_spent s) as H.
  destruct (decode s) as [v r| |e|]; try reflexivity. congruence.
Qed.

End DecoderTermination.

Module NormaliserFacts.

Import PyStrFacts.
Local Open Scope N_scope.

Lemma stripped_nonempty_filter (l : list str) :
  stripped_nonempty l = filter truthy (map strip l).
Proof.
  induction l as [|d r IH]; simpl; [reflexivity|].
  rewrite IH. now destruct (truthy (strip d)).
Qed.

Lemma stripped_nonempty_map (l : list str) :
  stripped_nonempty l = map strip (filter (fun d => truthy (strip d)) l).
Proof.
  induction l as [|d r IH]; simpl; [reflexivity|].
  rewrite IH. now destruct (truthy (strip d)).
Qed.

Lemma stripped_domains_strs (l : list str) :
  stripped_domains (map VStr l) = Return (stripped_nonempty l).
Proof.
  induction l as [|d r IH]; simpl; [reflexivity|].
  destruct (truthy (strip d)); rewrite IH; reflexivity.
Qed.

(** Every element the comprehension keeps is trimmed and not empty. *)
Lemma stripped_nonempty_trimmed (l : list str) :
  Forall (fun d => strip d = d /\ d <> []) (stripped_nonempty l).
Proof.
  induction l as [|d r IH]; simpl; [constructor|].
  destruct (truthy (strip d)) eqn:E; [|exact IH].
  constructor; [|exact IH].
  split; [apply strip_idem | now apply truthy_true].
Qed.

(** The inline parsing of the tools is the comprehension over the pieces of
    the argument: the guard in front of it changes nothing. *)
Lemma domain_arg_list_pieces (s : str) :
  domain_arg_list s = stripped_nonempty (split comma s).
Proof.
  unfold domain_arg_list.
  destruct (truthy s && truthy (strip s)) eqn:G; [reflexivity|].
  rewrite stripped_nonempty_filter.
  rewrite <- (map_strip_split_strip comma s isspace_comma).
  apply andb_false_iff in G. destruct G as [G|G]; apply truthy_false in G.
  - subst s. reflexivity.
  - rewrite G. reflexivity.
Qed.

Lemma stripped_nonempty_split_strip (s : str) :
  stripped_nonempty (split comma (strip s)) = stripped_nonempty (split comma s).
Proof.
  rewrite !stripped_nonempty_filter.
  now rewrite (map_strip_split_strip comma s isspace_comma).
Qed.

Lemma json_loads_nil : json_loads [] = Raise DecodeError.
Proof. reflexivity. Qed.

End NormaliserFacts.

Module NormaliserClaims.

Import PyStrFacts NormaliserFacts.
Local Open Scope N_scope.

(** C3.  The three documented results of the normaliser: the pieces
    [a], [b], [c] of [" a , b ,, c "], the two elements of the JSON array
    of [x.com] and [y.com], and the empty sequence on [None]. *)
Theorem parse_domains_list_examples :
  parse_domains_list (VStr (lit " a , b ,, c "))
    = Return [lit "a"; lit "b"; lit "c"]
  /\ parse_domains_list
       (VStr (lit "[" ++ quoted (lit "x.com") ++ lit "," ++ quoted (lit "y.com") ++ lit "]"))
     = Return [lit "x.com"; lit "y.com"]
  /\ parse_domains_list VNone = Return [].
Proof. repeat split; vm_compute; reflexivity. Qed.

(** C10.  A string that decodes as JSON to a value that is neither an array
    nor a string makes the normaliser raise [AttributeError] (the call of
    [strip] on that value) instead of returning a sequence; so it does on
    ["123"], ["true"] and ["{}"]. *)
Theorem parse_domains_list_raises_on_json_scalar :
  (forall (s : str) (parsed : value),
      json_loads (strip s) = Return parsed ->
      is_array_or_string parsed = false ->
      parse_domains_list (VStr s) = Raise AttributeError)
  /\ parse_domains_list (VStr (lit "123")) = Raise AttributeError
  /\ parse_domains_list (VStr (lit "true")) = Raise AttributeError
  /\ parse_domains_list (VStr (lit "{}")) = Raise AttributeError.
Proof.
  split; [|repeat split; vm_compute; reflexivity].
  intros s parsed Hj Hk. simpl.
  destruct (truthy (strip s)) eqn:T; simpl.
  - rewrite Hj. destruct parsed; try discriminate; reflexivity.
  - apply truthy_false in T. rewrite T, json_loads_nil in Hj. discriminate.
Qed.

(** C10 at the string ["null"], which decodes to [None]. *)
Lemma parse_domains_list_raises_on_json_scalar_witness :
  parse_domains_list (VStr (lit "null")) = Raise AttributeError.
Proof.
  apply (proj1 parse_domains_list_raises_on_json_scalar (lit "null") VNone);
    reflexivity.
Defined.

End NormaliserClaims.

Module ToolClaims.

Import PyStrFacts NormaliserFacts JsonFacts.
Local Open Scope N_scope.

Lemma str_eqb_eq (a b : str) : str_eqb a b = true <-> a = b.
Proof.
  revert b. induction a as [|x a IH]; intros [|y b]; simpl;
    try (split; [discriminate|congruence]); [now split|].
  rewrite andb_true_iff, N.eqb_eq, IH. split.
  - now intros [-> ->].
  - intros E. now injection E.
Qed.

Lemma not_in_depths_true (search_depth : str) :
  search_depth <> lit "basic" -> search_depth <> lit "advanced" ->
  not_in_depths search_depth = true.
Proof.
  intros Hb Ha. unfold not_in_depths.
  apply negb_true_iff, orb_false_iff. split; apply not_true_iff_false.
  - now rewrite str_eqb_eq.
  - now rewrite str_eqb_eq.
Qed.

Lemma domain_arg_list_rule (s : str) : domain_arg_list s = comma_trim_rule s.
Proof.
  rewrite domain_arg_list_pieces. unfold comma_trim_rule.
  rewrite stripped_nonempty_filter.
  now rewrite (map_strip_split_strip comma s isspace_comma).
Qed.

(** Where the model-level normaliser reaches its comma rule (the text holds
    a comma and is not JSON), it returns what the tools compute inline. *)
Lemma parse_domains_list_commas (s : str) :
  contains comma s = true ->
  json_loads (strip s) = Raise DecodeError ->
  parse_domains_list (VStr s) = Return (domain_arg_list s).
Proof.
  intros Hc Hj. simpl. rewrite Hj, (contains_strip comma s isspace_comma), Hc.
  assert (T : truthy (strip s) = true).
  { apply truthy_true. intros E.
    rewrite <- (contains_strip comma s isspace_comma), E in Hc. discriminate. }
  rewrite T. simpl.
  now rewrite stripped_nonempty_split_strip, domain_arg_list_pieces.
Qed.

(** The request a tool sends to the provider carries the inline parsing of
    the two domain arguments. *)
Lemma invoke_request (client_search : Request -> result Response) (c : Call) :
  exists request,
    fst (invoke client_search c) = [request]
    /\ rq_max_results request = call_max_results c
    /\ rq_include_domains request = domain_arg_list (call_include_domains c)
    /\ rq_exclude_domains request = domain_arg_list (call_exclude_domains c)
    /\ snd (invoke client_search c) =
       match client_search request with
       | Return response =>
           Text (format_results
                   (attach_filters (rq_include_domains request)
                      (rq_exclude_domains request) response))
       | Raise e => except_clauses e
       end.
Proof.
  destruct c as [q n sd inc exc | q n sd inc exc | q n d inc exc]; simpl;
    [ unfold tavily_web_search | unfold tavily_answer_search
    | unfold tavily_news_search ];
    (eexists; split; [|split; [|split; [|split]]]);
    match goal with
    | |- fst (match ?x with _ => _ end) = _ => destruct x; reflexivity
    | |- snd (match ?x with _ => _ end) = _ => destruct x; reflexivity
    | |- _ => reflexivity
    end.
Qed.

(** C4.  For every string the inline domain parsing of the tools equals the
    comma/trim rule (trim, split on commas, trim each piece, drop the empty
    pieces), and every tool sends the provider the two lists so computed; in
    particular the model-level normaliser and the tools agree wherever the
    normaliser applies that rule (the text holds a comma and the JSON
    decoder rejects it), which includes every text with a comma, no quote,
    bracket or brace, and no piece longer than the 4300 characters up to
    which an integer is converted. *)
Theorem tools_follow_comma_trim_rule :
  (forall s : str, domain_arg_list s = comma_trim_rule s)
  /\ (forall (client_search : Request -> result Response) (c : Call),
        exists request,
          fst (invoke client_search c) = [request]
          /\ rq_include_domains request = comma_trim_rule (call_include_domains c)
          /\ rq_exclude_domains request = comma_trim_rule (call_exclude_domains c))
  /\ (forall s : str,
        contains comma s = true ->
        json_loads (strip s) = Raise DecodeError ->
        parse_domains_list (VStr s) = Return (domain_arg_list s))
  /\ (forall s : str,
        contains comma s = true -> plain s = true ->
        pieces_within int_max_str_digits s = true ->
        parse_domains_list (VStr s) = Return (domain_arg_list s)).
Proof.
  split; [exact domain_arg_list_rule|]. split; [|split].
  - intros client_search c.
    destruct (invoke_request client_search c) as [rq [H1 [_ [H2 [H3 _]]]]].
    exists rq. now rewrite H2, H3, !domain_arg_list_rule.
  - exact parse_domains_list_commas.
  - intros s Hc Hp Hw. apply parse_domains_list_commas; [exact Hc|].
    now apply json_loads_plain_commas.
Qed.

(** C4 at the argument ["wsj.com, ft.com"]. *)
Lemma tools_follow_comma_trim_rule_witness :
  parse_domains_list (VStr (lit "wsj.com, ft.com"))
  = Return (domain_arg_list (lit "wsj.com, ft.com")).
Proof.
  apply (proj2 (proj2 (proj2 tools_follow_comma_trim_rule)) (lit "wsj.com, ft.com"));
    reflexivity.
Defined.

(** The bound on the pieces is needed: when the text starts with an integer
    of 4301 digits, [json.loads] raises the [ValueError] of the conversion,
    which the normaliser does not catch, while the tools split the text. *)
Remark paths_differ_on_long_integer :
  let s := repeat 0x31 4301 ++ lit ",a.com" in
  parse_domains_list (VStr s) = Raise (ValueError (digit_limit_message 4301))
  /\ domain_arg_list s = [repeat 0x31 4301; lit "a.com"].
Proof. split; vm_compute; reflexivity. Qed.

(** On a text that is JSON the two paths differ: the normaliser decodes the
    array, the tools split the raw text at its commas. *)
Lemma paths_differ_on_json_array :
  let s := lit "[" ++ quoted (lit "a") ++ lit "," ++ quoted (lit "b") ++ lit "]" in
  parse_domains_list (VStr s) = Return [lit "a"; lit "b"]
  /\ domain_arg_list s = [lit "[" ++ quoted (lit "a"); quoted (lit "b") ++ lit "]"].
Proof. split; vm_compute; reflexivity. Qed.

(** C2 (what the code does).  No tool checks [max_results]: a value outside
    the range that [SearchBase] declares is sent to the provider as it is,
    in the one request of the invocation, and when the provider answers the
    tool returns the formatted text, not an error. *)
Theorem out_of_range_max_results_reaches_provider
    (client_search : Request -> result Response) (c : Call) :
  SearchBase_max_results_ok (call_max_results c) = false ->
  exists request,
    fst (invoke client_search c) = [request]
    /\ rq_max_results request = call_max_results c
    /\ (forall response,
          client_search request = Return response ->
          exists text, snd (invoke client_search c) = Text text).
Proof.
  intros _.
  destruct (invoke_request client_search c) as [rq [H1 [H2 [_ [_ H5]]]]].
  exists rq. split; [exact H1|]. split; [exact H2|].
  intros response Hr. rewrite H5, Hr. eexists. reflexivity.
Qed.

(** C2 at [max_results = 25], with a provider that finds nothing. *)
Lemma out_of_range_max_results_reaches_provider_witness :
  let client := fun _ : Request =>
    Return {| answer := None; results := [];
              included_domains := None; excluded_domains := None |} in
  SearchBase_max_results_ok 25 = false
  /\ exists request,
       fst (invoke client (WebSearch (lit "q") 25 (lit "basic") [] []))
       = [request]
       /\ rq_max_results request = 25%Z
       /\ (forall response,
             client request = Return response ->
             exists text,
               snd (invoke client (WebSearch (lit "q") 25 (lit "basic") [] []))
               = Text text).
Proof.
  intros client. split; [reflexivity|].
  apply (out_of_range_max_results_reaches_provider client
           (WebSearch (lit "q") 25 (lit "basic") [] [])).
  reflexivity.
Defined.

(** C6.  A [search_depth] other than ["basic"] and ["advanced"] is replaced
    by ["basic"] in the general search and by ["advanced"] in the answer
    search: the invocation is the one with the default depth, and the
    request it sends carries that depth. *)
Theorem unrecognized_search_depth_falls_back
    (client_search : Request -> result Response)
    (query : str) (max_results : Z)
    (search_depth include_domains exclude_domains : str) :
  search_depth <> lit "basic" -> search_depth <> lit "advanced" ->
  tavily_web_search client_search query max_results search_depth
    include_domains exclude_domains
  = tavily_web_search client_search query max_results (lit "basic")
      include_domains exclude_domains
  /\ tavily_answer_search client_search query max_results search_depth
       include_domains exclude_domains
     = tavily_answer_search client_search query max_results (lit "advanced")
         include_domains exclude_domains
  /\ (exists request,
        fst (tavily_web_search client_search query max_results search_depth
               include_domains exclude_domains) = [request]
        /\ rq_search_depth request = Some (lit "basic"))
  /\ (exists request,
        fst (tavily_answer_search client_search query max_results search_depth
               include_domains exclude_domains) = [request]
        /\ rq_search_depth request = Some (lit "advanced")).
Proof.
  intros Hb Ha. pose proof (not_in_depths_true search_depth Hb Ha) as Hn.
  unfold tavily_web_search, tavily_answer_search. rewrite Hn.
  change (not_in_depths (lit "basic")) with false.
  change (not_in_depths (lit "advanced")) with false.
  cbv iota. repeat split.
  - eexists. split.
    + match goal with |- fst (match ?x with _ => _ end) = _ => now destruct x end.
    + reflexivity.
  - eexists. split.
    + match goal with |- fst (match ?x with _ => _ end) = _ => now destruct x end.
    + reflexivity.
Qed.

(** C6 at [search_depth = "deep"], with a provider that finds nothing. *)
Lemma unrecognized_search_depth_falls_back_witness :
  let client := fun _ : Request =>
    Return {| answer := None; results := [];
              included_domains := None; excluded_domains := None |} in
  tavily_web_search client (lit "q") 5 (lit "deep") [] []
  = tavily_web_search client (lit "q") 5 (lit "basic") [] []
  /\ tavily_answer_search client (lit "q") 5 (lit "deep") [] []
     = tavily_answer_search client (lit "q") 5 (lit "advanced") [] []
  /\ (exists request,
        fst (tavily_web_search client (lit "q") 5 (lit "deep") [] []) = [request]
        /\ rq_search_depth request = Some (lit "basic"))
  /\ (exists request,
        fst (tavily_answer_search client (lit "q") 5 (lit "deep") [] []) = [request]
        /\ rq_search_depth request = Some (lit "advanced")).
Proof.
  intros client.
  apply (unrecognized_search_depth_falls_back client (lit "q") 5 (lit "deep") [] []);
    discriminate.
Defined.

(** C7.  Every invocation sends the provider one request.  When that call
    raises [InvalidAPIKeyError] or [UsageLimitExceededError] the reply is an
    [McpError] of kind [INTERNAL_ERROR] with the provider's message; when it
    raises a [ValueError] the reply is an [McpError] of kind
    [INVALID_PARAMS] with its message.  The error is the whole reply: no
    second request, no text. *)
Theorem provider_errors_are_terminal
    (client_search : Request -> result Response) (c : Call) :
  exists request,
    fst (invoke client_search c) = [request]
    /\ (forall m, client_search request = Raise (InvalidAPIKeyError m) ->
                  snd (invoke client_search c) = McpError INTERNAL_ERROR m)
    /\ (forall m, client_search request = Raise (UsageLimitExceededError m) ->
                  snd (invoke client_search c) = McpError INTERNAL_ERROR m)
    /\ (forall m, client_search request = Raise (ValueError m) ->
                  snd (invoke client_search c) = McpError INVALID_PARAMS m).
Proof.
  destruct (invoke_request client_search c) as [rq [H1 [_ [_ [_ H5]]]]].
  exists rq. split; [exact H1|].
  repeat split; intros m Hm; rewrite H5, Hm; reflexivity.
Qed.

(** C7 with a provider that rejects the API key. *)
Lemma provider_errors_are_terminal_witness :
  invoke (fun _ => Raise (InvalidAPIKeyError (lit "Unauthorized")))
    (NewsSearch (lit "q") 5 3 [] [])
  = ([{| rq_query := lit "q"; rq_max_results := 5; rq_search_depth := None;
         rq_topic := Some (lit "news"); rq_days := Some 3%Z;
         rq_include_answer := false;
         rq_include_domains := []; rq_exclude_domains := [] |}],
     McpError INTERNAL_ERROR (lit "Unauthorized")).
Proof.
  destruct (provider_errors_are_terminal
              (fun _ => Raise (InvalidAPIKeyError (lit "Unauthorized")))
              (NewsSearch (lit "q") 5 3 [] [])) as [rq [H1 [H2 _]]].
  rewrite (surjective_pairing (invoke _ _)), H1, (H2 _ eq_refl).
  simpl in H1. injection H1 as <-. reflexivity.
Defined.

End ToolClaims.

Module FormatterClaims.

Local Open Scope N_scope.

Lemma join_cons2 (sep x y : str) (r : list str) :
  join sep (x :: y :: r) = x ++ sep ++ join sep (y :: r).
Proof. reflexivity. Qed.

Lemma join_app (sep : str) (l1 l2 : list str) :
  l1 <> [] -> l2 <> [] ->
  join sep (l1 ++ l2) = join sep l1 ++ sep ++ join sep l2.
Proof.
  intros H1 H2. induction l1 as [|x [|y r] IH]; [congruence| |].
  - destruct l2 as [|z l2]; [congruence|]. reflexivity.
  - change ((x :: y :: r) ++ l2) with (x :: y :: (r ++ l2)).
    rewrite !join_cons2. change (y :: r ++ l2) with ((y :: r) ++ l2).
    rewrite IH; [|discriminate]. now rewrite <- !app_assoc.
Qed.

Lemma entry_lines_not_nil (e : str) : entry_lines e <> [].
Proof.
  destruct e as [|c x]; simpl; [discriminate|].
  destruct (c =? newline); discriminate.
Qed.

Lemma join_entry_lines (e : str) : join [newline] (entry_lines e) = e.
Proof.
  destruct e as [|c x]; [reflexivity|]. simpl.
  destruct (N.eqb_spec c newline) as [->|_]; reflexivity.
Qed.

(** Joining the entries with newlines is joining their lines. *)
Lemma join_flat_entry_lines (l : list str) :
  join [newline] (flat_map entry_lines l) = join [newline] l.
Proof.
  induction l as [|e [|y r] IH]; [reflexivity| |].
  - simpl flat_map. rewrite app_nil_r. apply join_entry_lines.
  - change (flat_map entry_lines (e :: y :: r))
      with (entry_lines e ++ flat_map entry_lines (y :: r)).
    rewrite join_app, IH, join_entry_lines; [reflexivity| |].
    + apply entry_lines_not_nil.
    + simpl. pose proof (entry_lines_not_nil y) as H.
      destruct (entry_lines y); [congruence|discriminate].
Qed.

Lemma fold_left_extend {A : Type} (f : list str -> A -> list str)
    (g : A -> list str) (l : list A) (acc : list str) :
  (forall out a, f out a = out ++ g a) ->
  fold_left f l acc = acc ++ flat_map g l.
Proof.
  intros H. revert acc. induction l as [|a l IH]; intros acc; simpl.
  - now rewrite app_nil_r.
  - now rewrite IH, H, <- app_assoc.
Qed.

(** The list [output] at the end of [format_results]. *)
Lemma format_results_output (response : Response) :
  format_results response =
  join [newline]
    (filter_entries response ++ answer_entries response
     ++ [lit "Detailed Results:"] ++ flat_map result_entries (results response)).
Proof.
  assert (HR : forall acc,
    fold_left
      (fun out result =>
         let out := out ++ [newline :: lit "Title: " ++ title result] in
         let out := out ++ [lit "URL: " ++ url result] in
         let out := out ++ [lit "Content: " ++ content result] in
         if truthy_str (published_date result)
         then out ++ [lit "Published: " ++ the_str (published_date result)]
         else out)
      (results response) acc
    = acc ++ flat_map result_entries (results response)).
  { intros acc. apply fold_left_extend. intros out a. unfold result_entries.
    destruct (truthy_str (published_date a)); cbv zeta;
      now rewrite <- !app_assoc. }
  assert (HS : forall acc,
    fold_left
      (fun out result => out ++ [lit "- " ++ title result ++ lit ": " ++ url result])
      (results response) acc
    = acc ++ flat_map source_entry (results response)).
  { intros acc. now apply fold_left_extend. }
  unfold format_results, filter_entries, answer_entries, filters_section.
  cbv zeta. rewrite HR, HS. f_equal.
  destruct (truthy_list (included_domains response));
    destruct (truthy_list (excluded_domains response));
    destruct (truthy_str (answer response));
    cbn [orb app]; rewrite <- ?app_assoc; reflexivity.
Qed.

Lemma lines_of_sources (l : list ResultItem) :
  flat_map entry_lines (flat_map source_entry l) = map source_line l.
Proof.
  induction l as [|a l IH]; [reflexivity|].
  simpl flat_map. simpl map. now rewrite <- IH.
Qed.

Lemma lines_of_results (l : list ResultItem) :
  flat_map entry_lines (flat_map result_entries l) = flat_map result_block l.
Proof.
  induction l as [|a l IH]; [reflexivity|].
  cbn [flat_map]. rewrite flat_map_app, IH. f_equal.
  unfold result_entries, result_block.
  destruct (truthy_str (published_date a)); reflexivity.
Qed.

Lemma lines_of_filters (response : Response) :
  flat_map entry_lines (filter_entries response) = filters_section response.
Proof.
  unfold filter_entries, filters_section.
  destruct (truthy_list (included_domains response));
    destruct (truthy_list (excluded_domains response)); reflexivity.
Qed.

Lemma lines_of_answer (response : Response) :
  flat_map entry_lines (answer_entries response) = answer_section response.
Proof.
  unfold answer_entries, answer_section.
  destruct (truthy_str (answer response)); [|reflexivity].
  rewrite !flat_map_app, lines_of_sources. reflexivity.
Qed.

(** The output of [format_results] as the three sections, in order. *)
Lemma format_results_sections (response : Response) :
  format_results response =
  join [newline]
    (filters_section response ++ answer_section response
     ++ detailed_section response).
Proof.
  rewrite format_results_output, <- join_flat_entry_lines.
  rewrite !flat_map_app, lines_of_filters, lines_of_answer, lines_of_results.
  reflexivity.
Qed.

(** C5.  The formatter's output is, joined by newlines and in this order:
    the filters section (when a domain filter is present: the heading, the
    included and/or excluded domains joined by comma and space, an empty
    line), the answer section (when an answer is present: the answer, the
    sources as [- title: url] lines, an empty line), and always the detailed
    results (the heading, then per result an empty line, title, URL,
    content, and the publication date only when present).  On the example
    response the output starts with [Answer: 42], contains [- T: U], and
    ends with the detailed results of the one result. *)
Theorem format_results_section_order :
  (forall response : Response,
      format_results response =
      join [newline]
        (filters_section response ++ answer_section response
         ++ detailed_section response))
  /\ format_results example_response =
     join [newline]
       [lit "Answer: 42"; []; lit "Sources:"; lit "- T: U"; [];
        lit "Detailed Results:"; []; lit "Title: T"; lit "URL: U"; lit "Content: C"]
  /\ (exists rest, format_results example_response = lit "Answer: 42" ++ rest)
  /\ (exists before after,
        format_results example_response = before ++ lit "- T: U" ++ after)
  /\ (exists before,
        format_results example_response =
        before ++ join [newline]
                    [lit "Detailed Results:"; []; lit "Title: T"; lit "URL: U";
                     lit "Content: C"]).
Proof.
  split; [exact format_results_sections|].
  split; [vm_compute; reflexivity|].
  split; [eexists; vm_compute; reflexivity|].
  split.
  - exists (join [newline] [lit "Answer: 42"; []; lit "Sources:"] ++ [newline]).
    eexists. vm_compute. reflexivity.
  - exists (join [newline] [lit "Answer: 42"; []; lit "Sources:"; lit "- T: U"; []]
            ++ [newline]).
    vm_compute. reflexivity.
Qed.

End FormatterClaims.

Module CalculatorClaims.

Import Calculator.

Lemma SFeqb_refl (x : spec_float) : x <> S754_nan -> SFeqb x x = true.
Proof.
  intros H. destruct x as [s|s| |s m e]; [reflexivity| |congruence|].
  - now destruct s.
  - unfold SFeqb, SFcompare.
    rewrite Z.compare_refl, Pos.compare_cont_refl. now destruct s.
Qed.

Lemma shr_1_nonneg (mrs : shr_record) :
  (0 <= shr_m mrs)%Z -> (0 <= shr_m (shr_1 mrs))%Z.
Proof.
  destruct mrs as [m r s]. simpl.
  destruct m as [|p|p]; [simpl; lia| |lia].
  intros _. destruct p; simpl; lia.
Qed.

Lemma iter_shr_1_nonneg (p : positive) (mrs : shr_record) :
  (0 <= shr_m mrs)%Z -> (0 <= shr_m (iter_pos shr_1 p mrs))%Z.
Proof.
  revert mrs. induction p as [p IH|p IH|]; intros mrs H; simpl.
  - now apply IH, IH, shr_1_nonneg.
  - now apply IH, IH.
  - now apply shr_1_nonneg.
Qed.

Lemma shr_fexp_nonneg (m e : Z) (l : location) :
  (0 <= m)%Z -> (0 <= shr_m (fst (shr_fexp prec emax m e l)))%Z.
Proof.
  intros H. unfold shr_fexp, shr.
  assert (H0 : (0 <= shr_m (shr_record_of_loc m l))%Z).
  { destruct l as [|[]]; exact H. }
  destruct (fexp prec emax (Zdigits2 m + e) - e)%Z; simpl; try exact H0.
  now apply iter_shr_1_nonneg.
Qed.

Lemma round_nearest_even_nonneg (m : Z) (l : location) :
  (0 <= m)%Z -> (0 <= round_nearest_even m l)%Z.
Proof.
  intros H. destruct l as [|[]]; simpl; try lia.
  destruct (Z.even m); lia.
Qed.

(** Rounding a non-negative mantissa with a positive sign gives a
    non-negative float, never a NaN. *)
Lemma binary_round_aux_nonneg (m e : Z) (l : location) :
  (0 <= m)%Z -> nonneg_spec (binary_round_aux prec emax false m e l).
Proof.
  intros H. unfold binary_round_aux.
  pose proof (shr_fexp_nonneg m e l H) as H1.
  destruct (shr_fexp prec emax m e l) as [mrs' e'] eqn:E1. simpl in H1.
  pose proof (shr_fexp_nonneg _ e' loc_Exact
                (round_nearest_even_nonneg _ (loc_of_shr_record mrs') H1)) as H2.
  destruct (shr_fexp prec emax _ e' loc_Exact) as [mrs'' e''] eqn:E2.
  simpl in H2.
  destruct (shr_m mrs'') as [|p|p]; [exact I| |lia].
  destruct (e'' <=? emax - prec)%Z; exact I.
Qed.

Lemma SFsqrt_nonneg (x : spec_float) :
  nonneg_spec x -> nonneg_spec (SF64sqrt x).
Proof.
  destruct x as [s|[]| |[] m e]; simpl; try tauto.
  intros _. unfold SFsqrt_core_binary.
  match goal with
  | |- context [Z.sqrtrem ?n] =>
      pose proof (Z.sqrt_nonneg n) as Hq; rewrite <- Z.sqrtrem_sqrt in Hq;
      destruct (Z.sqrtrem n) as [q r]
  end.
  simpl in Hq. now apply binary_round_aux_nonneg.
Qed.

Lemma Prim2SF_zero : Prim2SF 0 = S754_zero false.
Proof. reflexivity. Qed.

Lemma nonneg_of_leb (x : float) : (0 <=? x)%float = true -> nonneg_spec (Prim2SF x).
Proof.
  rewrite leb_spec, Prim2SF_zero.
  destruct (Prim2SF x) as [s|[]| |[] m e]; simpl; try discriminate; exact (fun _ => I).
Qed.

Lemma leb_of_nonneg (x : float) : nonneg_spec (Prim2SF x) -> (0 <=? x)%float = true.
Proof.
  rewrite leb_spec, Prim2SF_zero.
  destruct (Prim2SF x) as [s|[]| |[] m e]; simpl; tauto.
Qed.

Lemma is_nan_spec (x : float) : is_nan x = negb (SFeqb (Prim2SF x) (Prim2SF x)).
Proof. unfold is_nan. now rewrite eqb_spec. Qed.

Lemma nonneg_not_nan (x : float) : nonneg_spec (Prim2SF x) -> is_nan x = false.
Proof.
  intros H. rewrite is_nan_spec, SFeqb_refl; [reflexivity|].
  intros E. rewrite E in H. exact H.
Qed.

(** [math.sqrt] returns the binary64 square root of a non-negative
    argument, and the result is non-negative. *)
Lemma math_sqrt_nonneg (x : float) :
  (0 <=? x)%float = true ->
  math_sqrt x = Return (sqrt x) /\ (0 <=? sqrt x)%float = true.
Proof.
  intros H. apply nonneg_of_leb in H.
  assert (Hs : nonneg_spec (Prim2SF (sqrt x))).
  { rewrite sqrt_spec. now apply SFsqrt_nonneg. }
  split; [|now apply leb_of_nonneg].
  unfold math_sqrt. now rewrite (nonneg_not_nan (sqrt x) Hs).
Qed.

(** [math.sqrt] raises the domain error on every negative argument. *)
Lemma math_sqrt_negative (x : float) :
  (x <? 0)%float = true ->
  math_sqrt x = Raise (ValueError (lit "math domain error")).
Proof.
  rewrite ltb_spec, Prim2SF_zero. intros H.
  unfold math_sqrt. rewrite !is_nan_spec, sqrt_spec.
  destruct (Prim2SF x) as [s|[]| |[] m e] eqn:E; simpl in H; try discriminate.
  - reflexivity.
  - rewrite (SFeqb_refl (S754_finite true m e)); [reflexivity|discriminate].
Qed.

(** C9.  [add(2, 3)] is 5, [subtract(2, 3)] is -1, [square_root(9.0)] is
    3.0 and [square_root(-1)] raises the domain error.  In general [add] and
    [subtract] return the sum and the difference of their integer
    arguments; [square_root] raises the domain error on every negative
    argument, and on a non-negative one returns the (binary64) square root,
    which is non-negative. *)
Theorem calculator_tools :
  add 2 3 = 5%Z
  /\ subtract 2 3 = (-1)%Z
  /\ square_root 9 = Return 3%float
  /\ square_root (-1) = Raise (ValueError (lit "math domain error"))
  /\ (forall a b : Z, add a b = (a + b)%Z /\ subtract a b = (a - b)%Z)
  /\ (forall x : float,
        (x <? 0)%float = true ->
        square_root x = Raise (ValueError (lit "math domain error")))
  /\ (forall x : float,
        (0 <=? x)%float = true ->
        square_root x = Return (sqrt x) /\ (0 <=? sqrt x)%float = true).
Proof.
  repeat split; try reflexivity.
  - now apply math_sqrt_negative.
  - now apply math_sqrt_nonneg.
  - now apply math_sqrt_nonneg.
Qed.

(** C9 at the arguments -4.0 and 2.25. *)
Lemma calculator_tools_witness :
  square_root (-4) = Raise (ValueError (lit "math domain error"))
  /\ square_root 2.25 = Return 1.5%float.
Proof.
  split.
  - apply (proj1 (proj2 (proj2 (proj2 (proj2 (proj2 calculator_tools))))) (-4)%float).
    reflexivity.
  - apply (proj2 (proj2 (proj2 (proj2 (proj2 (proj2 calculator_tools))))) 2.25%float).
    reflexivity.
Defined.

End CalculatorClaims.

(* ===================================================================== *)
(** ** Further properties of the code *)
(* ===================================================================== *)

Module DomainListProperties.

Import PyStrFacts JsonFacts NormaliserFacts ToolClaims.
Local Open Scope N_scope.

Lemma split_app_sep (sep : char) (s t : str) :
  split sep (s ++ sep :: t) = split sep s ++ split sep t.
Proof.
  induction s as [|c s IH].
  - simpl. now rewrite N.eqb_refl.
  - change ((c :: s) ++ sep :: t) with (c :: (s ++ sep :: t)).
    rewrite !split_step, IH. destruct (c =? sep); [reflexivity|].
    now destruct (split_cons sep s) as [h [r ->]].
Qed.

Lemma split_no_sep (sep : char) (s : str) :
  contains sep s = false -> split sep s = [s].
Proof.
  induction s as [|c s IH]; [reflexivity|].
  rewrite contains_cons, split_step. intros H.
  apply orb_false_iff in H. destruct H as [Hc Hs].
  rewrite N.eqb_sym, Hc, (IH Hs). reflexivity.
Qed.

Lemma split_pieces_no_sep (sep : char) (s : str) :
  Forall (fun d => contains sep d = false) (split sep s).
Proof.
  induction s as [|c s IH]; [repeat constructor|].
  rewrite split_step. destruct (c =? sep) eqn:E.
  - constructor; [reflexivity|exact IH].
  - destruct (split_cons sep s) as [h [r Hs]]. rewrite Hs in *.
    inversion IH as [|? ? Hh Hr]; subst. constructor; [|exact Hr].
    now rewrite contains_cons, N.eqb_sym, E, Hh.
Qed.

Lemma split_join (sep : char) (l : list str) :
  l <> [] -> Forall (fun d => contains sep d = false) l ->
  split sep (join [sep] l) = l.
Proof.
  intros Hne H. induction l as [|x [|y r] IH]; [congruence| |].
  - inversion H; subst. now apply split_no_sep.
  - inversion H as [|? ? Hx Hr]; subst.
    change (join [sep] (x :: y :: r)) with (x ++ sep :: join [sep] (y :: r)).
    rewrite split_app_sep, (split_no_sep sep x Hx), IH; [reflexivity|discriminate|exact Hr].
Qed.

Lemma stripped_nonempty_app (a b : list str) :
  stripped_nonempty (a ++ b) = stripped_nonempty a ++ stripped_nonempty b.
Proof.
  induction a as [|d a IH]; [reflexivity|]. simpl.
  rewrite IH. now destruct (truthy (strip d)).
Qed.

Lemma stripped_nonempty_clean (l : list str) :
  Forall clean l -> stripped_nonempty l = l.
Proof.
  induction 1 as [|d l [Hs [Hn _]] _ IH]; [reflexivity|]. simpl.
  rewrite Hs, IH. now destruct d.
Qed.

Lemma clean_no_comma (l : list str) :
  Forall clean l -> Forall (fun d => contains comma d = false) l.
Proof. apply Forall_impl. now intros d [_ [_ H]]. Qed.

Lemma domain_arg_list_join (l : list str) :
  Forall clean l -> domain_arg_list (join [comma] l) = l.
Proof.
  intros H. destruct l as [|x r]; [reflexivity|].
  rewrite domain_arg_list_pieces, split_join;
    [now apply stripped_nonempty_clean|discriminate|now apply clean_no_comma].
Qed.

Lemma stripped_nonempty_pieces_clean (s : str) :
  Forall clean (stripped_nonempty (split comma s)).
Proof.
  pose proof (split_pieces_no_sep comma s) as H.
  induction (split comma s) as [|d l IH]; [constructor|].
  inversion H as [|? ? Hd Hl]; subst. simpl.
  destruct (truthy (strip d)) eqn:T; [|now apply IH].
  constructor; [|now apply IH]. repeat split.
  - apply strip_idem.
  - now apply truthy_true.
  - now rewrite (contains_strip comma d isspace_comma).
Qed.

Lemma domain_arg_list_clean (s : str) : Forall clean (domain_arg_list s).
Proof. rewrite domain_arg_list_pieces. apply stripped_nonempty_pieces_clean. Qed.

(** X1.  The inline domain parsing of the tools turns a comma between two
    texts into concatenation of their lists: nothing is merged across a
    comma, and no entry is dropped as a duplicate. *)
Theorem domain_arg_list_app (s t : str) :
  domain_arg_list (s ++ comma :: t) = domain_arg_list s ++ domain_arg_list t.
Proof.
  rewrite !domain_arg_list_pieces, split_app_sep. apply stripped_nonempty_app.
Qed.

(** X2.  Round trip: a list of clean entries (trimmed, not empty, without
    a comma), joined with commas and given to a tool, is parsed back to the
    same list. *)
Theorem domain_arg_list_round_trip (l : list str) :
  Forall clean l -> domain_arg_list (join [comma] l) = l.
Proof. exact (domain_arg_list_join l). Qed.

(** X2 at the list of [wsj.com], [ft.com] and [wsj.com]. *)
Lemma domain_arg_list_round_trip_witness :
  domain_arg_list (join [comma] [lit "wsj.com"; lit "ft.com"; lit "wsj.com"])
  = [lit "wsj.com"; lit "ft.com"; lit "wsj.com"].
Proof.
  apply (domain_arg_list_round_trip [lit "wsj.com"; lit "ft.com"; lit "wsj.com"]).
  repeat constructor; discriminate.
Defined.

(** X3.  The inline parsing is idempotent through the comma-separated
    form: joining its result with commas and parsing again changes
    nothing. *)
Theorem domain_arg_list_idempotent (s : str) :
  domain_arg_list (join [comma] (domain_arg_list s)) = domain_arg_list s.
Proof. apply domain_arg_list_join, domain_arg_list_clean. Qed.

(** X4.  Whatever the arguments, every domain a tool sends to the provider
    is clean: trimmed, not empty, and without a comma. *)
Theorem tools_send_clean_domains
    (client_search : Request -> result Response) (c : Call) :
  exists request,
    fst (invoke client_search c) = [request]
    /\ Forall clean (rq_include_domains request)
    /\ Forall clean (rq_exclude_domains request).
Proof.
  destruct (invoke_request client_search c) as [rq [H1 [_ [H2 [H3 _]]]]].
  exists rq. rewrite H2, H3. split; [exact H1|].
  split; apply domain_arg_list_clean.
Qed.

Lemma stripped_domains_all_str (l : list value) :
  stripped_domains l =
  if forallb is_str l then Return (stripped_nonempty (strs_of l))
  else Raise AttributeError.
Proof.
  induction l as [|v l IH]; [reflexivity|].
  destruct v; try reflexivity. simpl.
  rewrite IH. destruct (truthy (strip s)); destruct (forallb is_str l); reflexivity.
Qed.

Lemma stripped_nonempty_idem (l : list str) :
  stripped_nonempty (stripped_nonempty l) = stripped_nonempty l.
Proof.
  induction l as [|d l IH]; [reflexivity|]. simpl.
  destruct (truthy (strip d)) eqn:T; [|exact IH].
  simpl. now rewrite strip_idem, T, IH.
Qed.

(** X5.  On a list the normaliser returns exactly when every element is a
    string, and then returns the trimmed non-blank elements; one element of
    another type, wherever it stands, makes it raise [AttributeError]. *)
Theorem parse_domains_list_on_list (l : list value) :
  parse_domains_list (VList l) =
  if forallb is_str l then Return (stripped_nonempty (strs_of l))
  else Raise AttributeError.
Proof. exact (stripped_domains_all_str l). Qed.

Lemma strs_of_map (l : list str) : strs_of (map VStr l) = l.
Proof. induction l as [|d l IH]; simpl; [reflexivity|now rewrite IH]. Qed.

(** X6.  The normaliser is idempotent on lists: a list it returned is
    returned unchanged when validated again. *)
Theorem parse_domains_list_idempotent (l : list value) (out : list str) :
  parse_domains_list (VList l) = Return out ->
  parse_domains_list (VList (map VStr out)) = Return out.
Proof.
  simpl. rewrite stripped_domains_all_str.
  destruct (forallb is_str l); [|discriminate].
  intros H. injection H as <-.
  rewrite stripped_domains_strs. now rewrite stripped_nonempty_idem.
Qed.

(** X6 at the list of [" a "], the empty string and ["b"]. *)
Lemma parse_domains_list_idempotent_witness :
  parse_domains_list (VList (map VStr [lit "a"; lit "b"]))
  = Return [lit "a"; lit "b"].
Proof.
  apply (parse_domains_list_idempotent [VStr (lit " a "); VStr []; VStr (lit "b")]).
  reflexivity.
Defined.

End DomainListProperties.

Module JsonTextProperties.

Import PyStrFacts JsonFacts NormaliserFacts.
Local Open Scope N_scope.

Lemma scanstring_safe (x rest : str) :
  forallb json_safe x = true ->
  scanstring (x ++ dquote :: rest) = Some (x, rest).
Proof.
  induction x as [|c x IH]; intros H; [reflexivity|].
  simpl in H. apply andb_true_iff in H. destruct H as [Hc Hx].
  unfold json_safe in Hc. apply negb_true_iff, orb_false_iff in Hc.
  destruct Hc as [Hc H3]. apply orb_false_iff in Hc. destruct Hc as [H1 H2].
  change ((c :: x) ++ dquote :: rest) with (c :: (x ++ dquote :: rest)).
  cbn [scanstring]. rewrite H1, H2, H3, (IH Hx). reflexivity.
Qed.

Lemma skip_ws_pad (pad : str) (c : char) (r : str) :
  forallb is_ws pad = true -> is_ws c = false ->
  skip_ws (pad ++ c :: r) = c :: r.
Proof.
  intros Hp Hc. induction pad as [|p pad IH]; simpl.
  - now rewrite Hc.
  - simpl in Hp. apply andb_true_iff in Hp. destruct Hp as [H1 H2].
    rewrite H1. now apply IH.
Qed.

Lemma rstrip_snoc (s : str) (c : char) :
  isspace c = false -> rstrip (s ++ [c]) = s ++ [c].
Proof.
  intros Hc. induction s as [|x s IH]; simpl; [now rewrite Hc|].
  rewrite IH. now destruct (s ++ [c]) eqn:E; [destruct s; discriminate|].
Qed.

(** A text between two characters that are not whitespace is already
    trimmed. *)
Lemma strip_delimited (a b : char) (s : str) :
  isspace a = false -> isspace b = false ->
  strip (a :: s ++ [b]) = a :: s ++ [b].
Proof.
  intros Ha Hb. unfold strip. simpl lstrip. rewrite Ha.
  exact (rstrip_snoc (a :: s) b Hb).
Qed.

Lemma quoted_cons (x rest : str) :
  quoted x ++ rest = dquote :: x ++ dquote :: rest.
Proof. unfold quoted. simpl. now rewrite <- app_assoc. Qed.

Lemma length_join_quoted (sep : str) (l : list str) :
  (List.length l <= List.length (join sep (map quoted l)))%nat.
Proof.
  induction l as [|x [|y r] IH]; [simpl; lia| |].
  - unfold quoted. simpl. lia.
  - change (join sep (map quoted (x :: y :: r)))
      with (quoted x ++ sep ++ join sep (map quoted (y :: r))).
    rewrite !length_app. unfold quoted at 1. cbn [List.length] in *. lia.
Qed.

Lemma scan_once_string (d : nat) (x rest : str) :
  forallb json_safe x = true ->
  scan_once d (dquote :: x ++ dquote :: rest) = Done (VStr x) rest.
Proof.
  intros Hx. destruct d; cbn [scan_once]; change (dquote =? 0x22) with true;
    cbv iota; now rewrite (scanstring_safe x rest Hx).
Qed.

(** The loop of [JSONArray] over the text of a non-empty list of plain
    strings reads the list back, with any scanner that reads a plain string
    literal. *)
Lemma array_items_text (scan_value : str -> scan value) (pad : str)
    (l : list str) (x : str) (fuel : nat) (tail : str) :
  (forall y rest, forallb json_safe y = true ->
                  scan_value (dquote :: y ++ dquote :: rest) = Done (VStr y) rest) ->
  forallb is_ws pad = true ->
  Forall (fun e => forallb json_safe e = true) (x :: l) ->
  (List.length (x :: l) <= fuel)%nat ->
  array_items scan_value fuel
    (join (comma :: pad) (map quoted (x :: l)) ++ 0x5D :: tail)
  = Done (map VStr (x :: l)) tail.
Proof.
  intros Hsc Hpad. revert x fuel.
  induction l as [|y l IH]; intros x fuel Hs Hf.
  - destruct fuel as [|n]; [simpl in Hf; lia|].
    inversion Hs as [|? ? Hx _]; subst.
    simpl map. simpl join. rewrite quoted_cons.
    cbn [array_items]. rewrite (Hsc x _ Hx). reflexivity.
  - destruct fuel as [|n]; [simpl in Hf; lia|].
    inversion Hs as [|? ? Hx Hl]; subst.
    change (join (comma :: pad) (map quoted (x :: y :: l)))
      with (quoted x ++ (comma :: pad) ++ join (comma :: pad) (map quoted (y :: l))).
    rewrite <- !app_assoc, quoted_cons.
    cbn [array_items]. rewrite (Hsc x _ Hx).
    change ((comma :: pad) ++ ?t) with (comma :: (pad ++ t)).
    cbn [skip_ws]. change (is_ws comma) with false. cbv iota.
    change (comma =? 0x5D) with false. change (comma =? 0x2C) with true. cbv iota.
    assert (Hj : exists t, join (comma :: pad) (map quoted (y :: l)) ++ 0x5D :: tail
                           = dquote :: t).
    { destruct l as [|z l]; simpl; eexists; reflexivity. }
    destruct Hj as [t Hj].
    rewrite Hj, (skip_ws_pad pad dquote t Hpad eq_refl), <- Hj.
    rewrite (IH y n Hl); [reflexivity|]. simpl in Hf |- *. lia.
Qed.

Lemma skip_ws_keep (c : char) (r : str) :
  is_ws c = false -> skip_ws (c :: r) = c :: r.
Proof. intros H. simpl. now rewrite H. Qed.

Lemma scan_once_array (d : nat) (r : str) :
  scan_once (S d) (0x5B :: r) = JSONArray (scan_once d) r.
Proof. reflexivity. Qed.

Lemma recursion_limit_pos : exists d, recursion_limit = S d.
Proof. now exists (Nat.pred recursion_limit). Qed.

(** The text of an array of plain strings decodes to the list of those
    strings. *)
Lemma json_loads_array_text (pad : str) (l : list str) :
  forallb is_ws pad = true ->
  Forall (fun e => forallb json_safe e = true) l ->
  json_loads (json_array_text pad l) = Return (VList (map VStr l)).
Proof.
  intros Hpad Hs. unfold json_loads, decode, json_array_text.
  change (lit "[") with [0x5B]. change (lit "]") with [0x5D].
  change ([0x5B] ++ ?t) with (0x5B :: t).
  destruct recursion_limit_pos as [d ->].
  rewrite (skip_ws_keep 0x5B _ eq_refl), scan_once_array.
  destruct l as [|x l]; [reflexivity|].
  set (body := join (comma :: pad) (map quoted (x :: l))).
  assert (Hb : exists t, body ++ [0x5D] = dquote :: t).
  { subst body. destruct l as [|z l]; simpl; eexists; reflexivity. }
  destruct Hb as [t Hb]. unfold JSONArray.
  rewrite Hb, (skip_ws_keep dquote t eq_refl).
  change (dquote =? 0x5D) with false. cbv iota. rewrite <- Hb.
  subst body.
  rewrite (array_items_text _ pad l x _ [] (scan_once_string _) Hpad Hs);
    [reflexivity|].
  pose proof (length_join_quoted (comma :: pad) (x :: l)) as L.
  rewrite length_app. simpl in L |- *. lia.
Qed.

(** X7.  A string holding the JSON text of an array of plain strings (no
    double quote, backslash or control character in them), with or without
    whitespace after the commas, is normalised exactly as the list of those
    strings. *)
Theorem parse_domains_list_json_array (pad : str) (l : list str) :
  forallb is_ws pad = true ->
  Forall (fun e => forallb json_safe e = true) l ->
  parse_domains_list (VStr (json_array_text pad l))
  = parse_domains_list (VList (map VStr l)).
Proof.
  intros Hpad Hs.
  assert (Ht : strip (json_array_text pad l) = json_array_text pad l).
  { unfold json_array_text. change (lit "[") with [0x5B]. change (lit "]") with [0x5D].
    now apply (strip_delimited 0x5B 0x5D). }
  cbn [parse_domains_list]. rewrite Ht.
  rewrite (json_loads_array_text pad l Hpad Hs). reflexivity.
Qed.

(** X7 at the array of [wsj.com], [ ft.com ] and the empty string, written
    with a space after each comma. *)
Lemma parse_domains_list_json_array_witness :
  parse_domains_list
    (VStr (json_array_text (lit " ") [lit "wsj.com"; lit " ft.com "; []]))
  = parse_domains_list (VList (map VStr [lit "wsj.com"; lit " ft.com "; []])).
Proof.
  apply (parse_domains_list_json_array (lit " ") [lit "wsj.com"; lit " ft.com "; []]).
  - reflexivity.
  - repeat constructor.
Defined.

Lemma json_loads_quoted (x : str) :
  forallb json_safe x = true -> json_loads (quoted x) = Return (VStr x).
Proof.
  intros Hx. unfold json_loads, decode, quoted.
  cbn [skip_ws]. change (is_ws dquote) with false. cbv iota.
  rewrite (scan_once_string _ x [] Hx). reflexivity.
Qed.

(** X8.  A string holding one JSON string literal is decoded and returned
    as a single trimmed element: it is not split at commas, and it is kept
    even when it is empty or blank. *)
Theorem parse_domains_list_json_string (x : str) :
  forallb json_safe x = true ->
  parse_domains_list (VStr (quoted x)) = Return [strip x].
Proof.
  intros Hx.
  assert (Ht : strip (quoted x) = quoted x).
  { now apply (strip_delimited dquote dquote). }
  cbn [parse_domains_list]. rewrite Ht.
  rewrite (json_loads_quoted x Hx). reflexivity.
Qed.

(** X8 at the literal of [" a.com, b.org "]. *)
Lemma parse_domains_list_json_string_witness :
  parse_domains_list (VStr (quoted (lit " a.com, b.org ")))
  = Return [strip (lit " a.com, b.org ")].
Proof.
  apply (parse_domains_list_json_string (lit " a.com, b.org ")). reflexivity.
Defined.

End JsonTextProperties.

Module ToolProperties.

Import PyStrFacts NormaliserFacts ToolClaims FormatterClaims.
Local Open Scope N_scope.

Lemma except_clauses_uncaught (e : exn) :
  caught e = false -> except_clauses e = Uncaught e.
Proof. destruct e; simpl; intros H; try discriminate; reflexivity. Qed.

Lemma except_clauses_error (e : exn) (code : ErrorCode) (m : str) :
  except_clauses e = McpError code m -> caught e = true.
Proof. destruct e; simpl; intros H; try discriminate; reflexivity. Qed.

(** X9.  The tools turn only the three exception classes of their [except]
    clauses (subclasses included) into a structured error: an exception of
    any other class leaves the tool unchanged, and a tool never answers
    with a structured error unless the provider call raised one of the
    three. *)
Theorem only_provider_errors_are_structured
    (client_search : Request -> result Response) (c : Call) :
  exists request,
    fst (invoke client_search c) = [request]
    /\ (forall e, client_search request = Raise e -> caught e = false ->
                  snd (invoke client_search c) = Uncaught e)
    /\ (forall code m, snd (invoke client_search c) = McpError code m ->
                       exists e, client_search request = Raise e /\ caught e = true).
Proof.
  destruct (invoke_request client_search c) as [rq [H1 [_ [_ [_ H5]]]]].
  exists rq. split; [exact H1|]. split.
  - intros e He Hc. rewrite H5, He. now apply except_clauses_uncaught.
  - intros code m Hm. rewrite H5 in Hm.
    destruct (client_search rq) as [response|e]; [discriminate|].
    exists e. split; [reflexivity|]. exact (except_clauses_error e code m Hm).
Qed.

(** X9 with a provider whose connection fails. *)
Lemma only_provider_errors_are_structured_witness :
  snd (invoke (fun _ => Raise (OtherError (lit "connection refused")))
         (WebSearch (lit "q") 5 (lit "basic") [] []))
  = Uncaught (OtherError (lit "connection refused")).
Proof.
  destruct (only_provider_errors_are_structured
              (fun _ => Raise (OtherError (lit "connection refused")))
              (WebSearch (lit "q") 5 (lit "basic") [] [])) as [rq [_ [H2 _]]].
  exact (H2 _ eq_refl eq_refl).
Defined.

Lemma attach_filters_included (d : str) (l exclude_list : list str)
    (response : Response) :
  included_domains (attach_filters (d :: l) exclude_list response) = Some (d :: l).
Proof. destruct exclude_list; reflexivity. Qed.

Lemma attach_filters_none (response : Response) :
  attach_filters [] [] response = response.
Proof. reflexivity. Qed.

Lemma format_results_included (response : Response) (d : str) (l : list str) :
  included_domains response = Some (d :: l) ->
  exists rest,
    format_results response =
    lit "Search Filters:" ++ [newline]
    ++ (lit "Including domains: " ++ join (lit ", ") (d :: l)) ++ [newline] ++ rest.
Proof.
  intros H. rewrite format_results_sections. unfold filters_section.
  rewrite H. cbn [truthy_list orb the_list].
  set (line := lit "Including domains: " ++ join (lit ", ") (d :: l)).
  set (tail := (if truthy_list (excluded_domains response) then _ else [])
               ++ [[]]).
  assert (Ht : exists y r, (tail ++ answer_section response
                            ++ detailed_section response) = y :: r).
  { subst tail. destruct (truthy_list (excluded_domains response));
      simpl; eexists; eexists; reflexivity. }
  destruct Ht as [y [r Ht]].
  change (([lit "Search Filters:"] ++ [line] ++ tail)
          ++ answer_section response ++ detailed_section response)
    with (lit "Search Filters:" :: line
          :: (tail ++ answer_section response ++ detailed_section response)).
  rewrite Ht. exists (join [newline] (y :: r)).
  rewrite !join_cons2. reflexivity.
Qed.

(** X10.  When the provider answers and the [include_domains] argument
    holds at least one domain, the text a tool returns opens with the
    "Search Filters:" heading and the tool's own include list joined by comma
    and space, whatever the provider's response says; when both domain
    arguments hold none, the response is formatted as the provider gave
    it. *)
Theorem tools_echo_their_filters
    (client_search : Request -> result Response) (c : Call) :
  exists request,
    fst (invoke client_search c) = [request]
    /\ forall response,
         client_search request = Return response ->
         (domain_arg_list (call_include_domains c) <> [] ->
          exists rest,
            snd (invoke client_search c) =
            Text (lit "Search Filters:" ++ [newline]
                  ++ (lit "Including domains: "
                      ++ join (lit ", ") (domain_arg_list (call_include_domains c)))
                  ++ [newline] ++ rest))
         /\ (domain_arg_list (call_include_domains c) = [] ->
             domain_arg_list (call_exclude_domains c) = [] ->
             snd (invoke client_search c) = Text (format_results response)).
Proof.
  destruct (invoke_request client_search c) as [rq [H1 [_ [H2 [H3 H5]]]]].
  exists rq. split; [exact H1|]. intros response Hr.
  rewrite H5, Hr, H2, H3. split.
  - intros Hne.
    destruct (domain_arg_list (call_include_domains c)) as [|d l]; [congruence|].
    destruct (format_results_included
                (attach_filters (d :: l) (domain_arg_list (call_exclude_domains c))
                   response) d l (attach_filters_included d l _ response))
      as [rest Hrest].
    exists rest. now rewrite Hrest.
  - intros Hi He. now rewrite Hi, He.
Qed.

(** X10 at [include_domains = "wsj.com, ft.com"], with a provider that
    finds nothing. *)
Lemma tools_echo_their_filters_witness :
  exists rest,
    snd (invoke (fun _ => Return {| answer := None; results := [];
                                    included_domains := None;
                                    excluded_domains := None |})
           (NewsSearch (lit "q") 5 3 (lit "wsj.com, ft.com") []))
    = Text (lit "Search Filters:" ++ [newline]
            ++ (lit "Including domains: "
                ++ join (lit ", ") [lit "wsj.com"; lit "ft.com"])
            ++ [newline] ++ rest).
Proof.
  destruct (tools_echo_their_filters
              (fun _ => Return {| answer := None; results := [];
                                  included_domains := None;
                                  excluded_domains := None |})
              (NewsSearch (lit "q") 5 3 (lit "wsj.com, ft.com") []))
    as [rq [_ H]].
  destruct (H _ eq_refl) as [H1 _]. apply H1. discriminate.
Defined.

End ToolProperties.

Module CalculatorProperties.

Import Calculator CalculatorClaims.

(** X14.  [subtract] undoes [add] and [add] undoes [subtract], on all
    integers (Python integers do not overflow). *)
Theorem add_subtract_inverse (a b : Z) :
  subtract (add a b) b = a /\ add (subtract a b) b = a.
Proof. unfold add, subtract, int. lia. Qed.

Lemma sqrt_not_nan_unless (x : float) :
  (x <? 0)%float = false ->
  is_nan (sqrt x) && negb (is_nan x) = false.
Proof.
  intros H. rewrite ltb_spec, Prim2SF_zero in H.
  destruct (Prim2SF x) as [s|[]| |[] m e] eqn:E; simpl in H; try discriminate.
  - rewrite (nonneg_not_nan (sqrt x)); [reflexivity|].
    rewrite sqrt_spec, E. exact I.
  - rewrite (nonneg_not_nan (sqrt x)); [reflexivity|].
    rewrite sqrt_spec, E. exact I.
  - assert (Hx : is_nan x = true) by (rewrite is_nan_spec, E; reflexivity).
    rewrite Hx. apply andb_false_r.
  - rewrite (nonneg_not_nan (sqrt x)); [reflexivity|].
    rewrite sqrt_spec. apply SFsqrt_nonneg. rewrite E. exact I.
Qed.

(** X15.  [square_root] raises the domain error exactly on the arguments
    below zero (minus infinity included); on every other argument, a NaN
    and the negative zero included, it returns the binary64 square root. *)
Theorem square_root_raises_iff_negative (x : float) :
  square_root x =
  if (x <? 0)%float then Raise (ValueError (lit "math domain error"))
  else Return (sqrt x).
Proof.
  destruct (x <? 0)%float eqn:H.
  - now apply math_sqrt_negative.
  - unfold square_root, math_sqrt. now rewrite (sqrt_not_nan_unless x H).
Qed.

End CalculatorProperties.

Module FormatterProperties.

Import FormatterClaims.
Local Open Scope N_scope.

(** *** Empty fields *)

Lemma truthy_drop_str (o : option str) :
  truthy_str (drop_empty_str o) = truthy_str o.
Proof. now destruct o as [[|c s]|]. Qed.

Lemma the_drop_str (o : option str) : the_str (drop_empty_str o) = the_str o.
Proof. now destruct o as [[|c s]|]. Qed.

Lemma truthy_drop_list (o : option (list str)) :
  truthy_list (drop_empty_list o) = truthy_list o.
Proof. now destruct o as [[|d l]|]. Qed.

Lemma the_drop_list (o : option (list str)) :
  the_list (drop_empty_list o) = the_list o.
Proof. now destruct o as [[|d l]|]. Qed.

Lemma filters_section_drop (response : Response) :
  filters_section (drop_empty_fields response) = filters_section response.
Proof.
  unfold filters_section, drop_empty_fields.
  cbn [included_domains excluded_domains].
  now rewrite !truthy_drop_list, !the_drop_list.
Qed.

Lemma answer_section_drop (response : Response) :
  answer_section (drop_empty_fields response) = answer_section response.
Proof.
  unfold answer_section, drop_empty_fields. cbn [answer results].
  now rewrite truthy_drop_str, the_drop_str, map_map.
Qed.

Lemma detailed_section_drop (response : Response) :
  detailed_section (drop_empty_fields response) = detailed_section response.
Proof.
  unfold detailed_section, drop_empty_fields. cbn [results]. f_equal.
  induction (results response) as [|item l IH]; [reflexivity|].
  cbn [map flat_map]. rewrite IH. f_equal.
  unfold result_block. cbn [title url content published_date].
  now rewrite truthy_drop_str, the_drop_str.
Qed.

(** X11.  An empty field is formatted like an absent one: an empty answer,
    an empty list of included or excluded domains and an empty publication
    date leave no trace in the output. *)
Theorem format_results_ignores_empty_fields (response : Response) :
  format_results (drop_empty_fields response) = format_results response.
Proof.
  rewrite !format_results_sections.
  now rewrite filters_section_drop, answer_section_drop, detailed_section_drop.
Qed.

(** *** The detailed results close every output *)

(** X13.  Every output ends with the detailed results: the heading
    "Detailed Results:" is written for every response, also for one with no
    result, followed by the block of each result in order. *)
Theorem format_results_ends_with_details (response : Response) :
  exists before,
    format_results response =
    before ++ lit "Detailed Results:"
    ++ flat_map (fun line => newline :: line)
         (flat_map result_block (results response)).
Proof.
  assert (Hj : forall x l,
             join [newline] (x :: l) = x ++ flat_map (fun line => newline :: line) l).
  { intros x l. revert x. induction l as [|y l IH]; intros x.
    - simpl. now rewrite app_nil_r.
    - rewrite join_cons2, IH. reflexivity. }
  rewrite format_results_sections. rewrite app_assoc.
  destruct (filters_section response ++ answer_section response) as [|a r] eqn:E.
  - exists []. cbn [app]. unfold detailed_section. now rewrite Hj.
  - exists (join [newline] (a :: r) ++ [newline]).
    rewrite join_app; [|discriminate|discriminate].
    unfold detailed_section. rewrite (Hj (lit "Detailed Results:")).
    now rewrite <- !app_assoc.
Qed.

(** *** Counting lines *)

Lemma count_newlines_app (a b : str) :
  count_newlines (a ++ b) = (count_newlines a + count_newlines b)%nat.
Proof. unfold count_newlines. now rewrite filter_app, length_app. Qed.

Lemma count_newlines_join (l : list str) :
  l <> [] ->
  S (count_newlines (join [newline] l))
  = (List.length l + list_sum (map count_newlines l))%nat.
Proof.
  intros Hne. induction l as [|x [|y r] IH]; [congruence| |].
  - cbn -[count_newlines]. lia.
  - rewrite join_cons2, !count_newlines_app.
    assert (IH' := IH ltac:(discriminate)).
    change (count_newlines [newline]) with 1%nat.
    cbn -[count_newlines join] in IH' |- *. lia.
Qed.

Lemma one_line_join (sep : str) (l : list str) :
  one_line sep -> Forall one_line l -> one_line (join sep l).
Proof.
  unfold one_line. intros Hs H. induction l as [|x [|y r] IH]; [reflexivity| |].
  - now inversion H.
  - inversion H as [|? ? Hx Hr]; subst.
    rewrite join_cons2, !count_newlines_app, Hx, Hs, (IH Hr). reflexivity.
Qed.

Lemma list_sum_zero (l : list str) :
  Forall one_line l -> list_sum (map count_newlines l) = 0%nat.
Proof.
  induction 1 as [|x l Hx _ IH]; [reflexivity|]. simpl.
  unfold one_line in Hx. now rewrite Hx, IH.
Qed.

Lemma one_line_lit_app (s : string) (x : str) :
  one_line (lit s) -> one_line x -> one_line (lit s ++ x).
Proof. unfold one_line. intros H1 H2. now rewrite count_newlines_app, H1, H2. Qed.

Lemma filters_section_lines (response : Response) :
  Forall one_line (the_list (included_domains response)) ->
  Forall one_line (the_list (excluded_domains response)) ->
  Forall one_line (filters_section response).
Proof.
  intros Hi He. unfold filters_section.
  destruct (truthy_list (included_domains response));
    destruct (truthy_list (excluded_domains response)); cbn [orb app];
    repeat constructor;
    apply one_line_lit_app; try reflexivity; now apply one_line_join.
Qed.

Lemma answer_section_lines (response : Response) :
  one_line (the_str (answer response)) ->
  Forall one_line_item (results response) ->
  Forall one_line (answer_section response).
Proof.
  intros Ha Hr. unfold answer_section.
  destruct (truthy_str (answer response)); [|constructor].
  apply Forall_app. split.
  - repeat constructor. now apply one_line_lit_app.
  - apply Forall_app. split; [|repeat constructor].
    apply Forall_map. eapply Forall_impl; [|exact Hr].
    intros item [Ht [Hu _]]. unfold source_line.
    apply one_line_lit_app; [reflexivity|].
    unfold one_line in *. now rewrite !count_newlines_app, Ht, Hu.
Qed.

Lemma result_block_lines (item : ResultItem) :
  one_line_item item -> Forall one_line (result_block item).
Proof.
  intros [Ht [Hu [Hc Hp]]]. unfold result_block. apply Forall_app. split.
  - repeat constructor; now apply one_line_lit_app.
  - destruct (truthy_str (published_date item)); repeat constructor.
    now apply one_line_lit_app.
Qed.

Lemma detailed_section_lines (response : Response) :
  Forall one_line_item (results response) ->
  Forall one_line (detailed_section response).
Proof.
  intros Hr. unfold detailed_section. constructor; [reflexivity|].
  induction Hr as [|item l Hi _ IH]; [constructor|].
  cbn [flat_map]. apply Forall_app. split; [now apply result_block_lines|exact IH].
Qed.

Lemma length_sections (response : Response) :
  List.length (filters_section response ++ answer_section response
               ++ detailed_section response)
  = line_count response.
Proof.
  rewrite !length_app. unfold line_count, filters_section, answer_section,
    detailed_section.
  assert (Hd : List.length (flat_map result_block (results response))
               = list_sum (map result_line_count (results response))).
  { induction (results response) as [|item l IH]; [reflexivity|].
    cbn [flat_map map list_sum]. rewrite length_app, IH. f_equal.
    unfold result_block, result_line_count.
    now destruct (truthy_str (published_date item)). }
  cbn [List.length]. rewrite Hd.
  destruct (truthy_list (included_domains response));
    destruct (truthy_list (excluded_domains response));
    destruct (truthy_str (answer response)); cbn [orb];
    rewrite ?length_app, ?length_map; cbn [List.length]; lia.
Qed.

(** X12.  For a response whose texts hold no newline, the output has one
    line per item: two for the filters section plus one per filter present,
    four for the answer section plus one per result, one for the heading of
    the detailed results, and four or five per result (five with a
    publication date). *)
Theorem format_results_line_count (response : Response) :
  one_line_response response ->
  S (count_newlines (format_results response)) = line_count response.
Proof.
  intros [Ha [Hr [Hi He]]].
  rewrite format_results_sections, count_newlines_join.
  - rewrite list_sum_zero, length_sections; [lia|].
    apply Forall_app. split; [now apply filters_section_lines|].
    apply Forall_app. split;
      [now apply answer_section_lines|now apply detailed_section_lines].
  - unfold detailed_section.
    destruct (filters_section response); destruct (answer_section response);
      discriminate.
Qed.

(** X12 at the example response: ten lines. *)
Lemma format_results_line_count_witness :
  S (count_newlines (format_results example_response)) = 10%nat.
Proof.
  apply (format_results_line_count example_response).
  repeat split; repeat constructor.
Defined.

End FormatterProperties.

Module RequestProperties.

Import PyStrFacts NormaliserFacts ToolClaims.
Local Open Scope N_scope.

(** X16.  The news tool does not check [days]: a value outside the range
    that [NewsSearch] declares (1 to 365) is sent to the provider as it is,
    with the topic ["news"] and without a search depth. *)
Theorem out_of_range_days_reach_provider
    (client_search : Request -> result Response)
    (query : str) (max_results days : Z) (include_domains exclude_domains : str) :
  NewsSearch_days_ok (Some days) = false ->
  exists request,
    fst (tavily_news_search client_search query max_results days
           include_domains exclude_domains) = [request]
    /\ rq_days request = Some days
    /\ rq_topic request = Some (lit "news")
    /\ rq_search_depth request = None.
Proof.
  intros _. unfold tavily_news_search. eexists. split.
  - match goal with |- fst (match ?x with _ => _ end) = _ => now destruct x end.
  - repeat split.
Qed.

(** X16 at [days = 0], with a provider that finds nothing. *)
Lemma out_of_range_days_reach_provider_witness :
  exists request,
    fst (tavily_news_search
           (fun _ => Return {| answer := None; results := [];
                               included_domains := None;
                               excluded_domains := None |})
           (lit "q") 5 0 [] []) = [request]
    /\ rq_days request = Some 0%Z
    /\ rq_topic request = Some (lit "news")
    /\ rq_search_depth request = None.
Proof.
  apply (out_of_range_days_reach_provider
           (fun _ => Return {| answer := None; results := [];
                               included_domains := None;
                               excluded_domains := None |})
           (lit "q") 5 0 [] []).
  reflexivity.
Defined.

Lemma not_in_depths_false (search_depth : str) :
  not_in_depths search_depth = false ->
  search_depth = lit "basic" \/ search_depth = lit "advanced".
Proof.
  unfold not_in_depths. intros H. apply negb_false_iff, orb_true_iff in H.
  destruct H as [H|H]; apply str_eqb_eq in H; [now left|now right].
Qed.

(** X17.  Whatever [search_depth] the caller gives, the general and the
    answer search send the provider ["basic"] or ["advanced"] and nothing
    else; a recognised value is sent unchanged. *)
Theorem provider_sees_known_depths
    (client_search : Request -> result Response)
    (query : str) (max_results : Z)
    (search_depth include_domains exclude_domains : str) :
  (exists request,
      fst (tavily_web_search client_search query max_results search_depth
             include_domains exclude_domains) = [request]
      /\ (rq_search_depth request = Some (lit "basic")
          \/ rq_search_depth request = Some (lit "advanced"))
      /\ (not_in_depths search_depth = false ->
          rq_search_depth request = Some search_depth))
  /\ (exists request,
        fst (tavily_answer_search client_search query max_results search_depth
               include_domains exclude_domains) = [request]
        /\ (rq_search_depth request = Some (lit "basic")
            \/ rq_search_depth request = Some (lit "advanced"))
        /\ (not_in_depths search_depth = false ->
            rq_search_depth request = Some search_depth)).
Proof.
  unfold tavily_web_search, tavily_answer_search.
  split; eexists; (split; [|split]);
    try match goal with
        | |- fst (match ?x with _ => _ end) = _ => now destruct x
        end;
    cbn [rq_search_depth];
    destruct (not_in_depths search_depth) eqn:E;
    try (intros; congruence); try (now left); try (now right);
    destruct (not_in_depths_false search_depth E) as [->| ->];
    try (now left); now right.
Qed.

Lemma lstrip_nil_iff (s : str) : lstrip s = [] <-> forallb isspace s = true.
Proof.
  induction s as [|c s IH]; simpl; [tauto|].
  destruct (isspace c); simpl; [exact IH|]. split; discriminate.
Qed.

Lemma rstrip_nil_iff (s : str) : rstrip s = [] <-> forallb isspace s = true.
Proof.
  induction s as [|c s IH]; [simpl; tauto|].
  cbn [forallb]. destruct (isspace c) eqn:E.
  - rewrite (rstrip_cons_space c s E). cbn [andb]. rewrite <- IH.
    destruct (rstrip s); split; congruence.
  - rewrite (rstrip_cons_nonspace c s E). cbn [andb]. split; discriminate.
Qed.

Lemma lstrip_head (s : str) (c : char) (r : str) :
  lstrip s = c :: r -> isspace c = false.
Proof.
  induction s as [|x s IH]; simpl; [discriminate|].
  destruct (isspace x) eqn:E; [exact IH|]. intros H. now injection H as <- _.
Qed.

(** A text is trimmed to nothing exactly when it is whitespace only. *)
Lemma strip_nil_iff (s : str) : strip s = [] <-> forallb isspace s = true.
Proof.
  unfold strip. split.
  - intros H. apply rstrip_nil_iff in H. apply lstrip_nil_iff.
    destruct (lstrip s) as [|c r] eqn:L; [reflexivity|].
    apply lstrip_head in L. simpl in H. now rewrite L in H.
  - intros H. apply lstrip_nil_iff in H. now rewrite H.
Qed.

Lemma stripped_nonempty_nil_iff (l : list str) :
  stripped_nonempty l = [] <-> Forall (fun p => forallb isspace p = true) l.
Proof.
  induction l as [|p l IH]; simpl; [split; [constructor|reflexivity]|].
  destruct (truthy (strip p)) eqn:T.
  - split; [discriminate|]. intros H. inversion H as [|? ? Hp _]; subst.
    apply strip_nil_iff in Hp. rewrite Hp in T. discriminate.
  - apply truthy_false, strip_nil_iff in T. rewrite IH. split.
    + now constructor.
    + intros H. now inversion H.
Qed.

Lemma split_all_blank (s : str) :
  Forall (fun p => forallb isspace p = true) (split comma s)
  <-> forallb (fun c => isspace c || (c =? comma)) s = true.
Proof.
  induction s as [|c s IH]; [simpl; split; [reflexivity|repeat constructor]|].
  rewrite split_step. cbn [forallb]. destruct (c =? comma) eqn:E.
  - rewrite orb_true_r. cbn [andb]. rewrite <- IH. split.
    + intros H. now inversion H.
    + intros H. now constructor.
  - rewrite orb_false_r. destruct (split_cons comma s) as [h [r Hs]].
    rewrite Hs in *. cbn [on_head]. rewrite andb_true_iff, <- IH. split.
    + intros H. inversion H as [|? ? Hh Hr]; subst. simpl in Hh.
      apply andb_true_iff in Hh. destruct Hh as [Hc Hh].
      split; [exact Hc|now constructor].
    + intros [Hc H]. inversion H as [|? ? Hh Hr]; subst.
      constructor; [|exact Hr]. simpl. now rewrite Hc, Hh.
Qed.

(** X18.  A tool applies no domain filter exactly when the argument holds
    nothing but whitespace and commas (the empty string included). *)
Theorem domain_arg_list_nil_iff (s : str) :
  domain_arg_list s = []
  <-> forallb (fun c => isspace c || (c =? comma)) s = true.
Proof.
  rewrite domain_arg_list_pieces, stripped_nonempty_nil_iff.
  apply split_all_blank.
Qed.

End RequestProperties.

(* ===================================================================== *)
(** ** What [json.loads] raises besides the decoding error *)
(* ===================================================================== *)

Module DecoderLimits.

Import PyStrFacts JsonFacts NormaliserFacts.
Local Open Scope N_scope.

Lemma rstrip_repeat_app (c : char) (n : nat) (tail : str) :
  isspace c = false ->
  rstrip (repeat c n ++ tail) = repeat c n ++ rstrip tail.
Proof.
  intros Hc. induction n as [|n IH]; [reflexivity|].
  change (repeat c (S n) ++ tail) with (c :: (repeat c n ++ tail)).
  now rewrite (rstrip_cons_nonspace c _ Hc), IH.
Qed.

(** A run of opening brackets longer than the nesting that is left is not
    read to its end. *)
Lemma scan_once_brackets (d n : nat) (tail : str) :
  (d < n)%nat -> scan_once d (repeat 0x5B n ++ tail) = Stop RecursionError.
Proof.
  revert n. induction d as [|d IH]; intros n Hn.
  - destruct n as [|n]; [lia|]. reflexivity.
  - destruct n as [|n]; [lia|].
    change (repeat 0x5B (S n) ++ tail) with (0x5B :: (repeat 0x5B n ++ tail)).
    change (scan_once (S d) (0x5B :: ?r)) with (JSONArray (scan_once d) r).
    destruct n as [|n]; [lia|].
    change (repeat 0x5B (S n) ++ tail) with (0x5B :: (repeat 0x5B n ++ tail)).
    unfold JSONArray. cbn [skip_ws]. change (is_ws 0x5B) with false. cbv iota.
    change (0x5B =? 0x5D) with false. cbv iota.
    cbn [array_items].
    change (0x5B :: (repeat 0x5B n ++ tail)) with (repeat 0x5B (S n) ++ tail).
    rewrite (IH (S n)); [reflexivity|lia].
Qed.

(** X20.  A string that starts with more opening brackets than the
    recursion limit makes the normaliser raise [RecursionError], whatever
    follows them: [json.loads] raises it, and the [except] clause of the
    normaliser catches the decoding error only. *)
Theorem parse_domains_list_deep_nesting (n : nat) (tail : str) :
  (recursion_limit < n)%nat ->
  parse_domains_list (VStr (repeat 0x5B n ++ tail)) = Raise RecursionError.
Proof.
  intros Hn. destruct n as [|n]; [lia|].
  assert (Hs : strip (repeat 0x5B (S n) ++ tail)
               = repeat 0x5B (S n) ++ rstrip tail).
  { unfold strip.
    change (lstrip (repeat 0x5B (S n) ++ tail)) with (repeat 0x5B (S n) ++ tail).
    now apply rstrip_repeat_app. }
  cbn [parse_domains_list]. rewrite Hs.
  change (truthy (repeat 0x5B (S n) ++ rstrip tail)) with true.
  cbn [negb]. cbv iota. unfold json_loads, decode.
  change (skip_ws (repeat 0x5B (S n) ++ rstrip tail))
    with (repeat 0x5B (S n) ++ rstrip tail).
  now rewrite (scan_once_brackets recursion_limit (S n) (rstrip tail) Hn).
Qed.

(** X20 at 1001 opening brackets. *)
Lemma parse_domains_list_deep_nesting_witness :
  parse_domains_list (VStr (repeat 0x5B 1001 ++ [])) = Raise RecursionError.
Proof.
  apply (parse_domains_list_deep_nesting 1001 []).
  apply Nat.ltb_lt. vm_compute. reflexivity.
Defined.

Lemma is_digit_range (c : char) : is_digit c = true -> 0x30 <= c <= 0x39.
Proof.
  unfold is_digit. intros H. apply andb_true_iff in H.
  destruct H as [H1 H2]. apply N.leb_le in H1, H2. lia.
Qed.

Lemma is_digit_not_space (c : char) : is_digit c = true -> isspace c = false.
Proof.
  intros H. apply is_digit_range in H. unfold isspace.
  repeat match goal with
  | |- context [?a <=? ?b] => destruct (N.leb_spec a b); try lia
  | |- context [?a =? ?b] => destruct (N.eqb_spec a b); try lia
  end; reflexivity.
Qed.

Lemma span_digits_all (ds : str) :
  forallb is_digit ds = true -> span_digits ds = (ds, []).
Proof.
  induction ds as [|c ds IH]; [reflexivity|].
  simpl. intros H. apply andb_true_iff in H. destruct H as [Hc Hd].
  now rewrite Hc, (IH Hd).
Qed.

Lemma rstrip_digits (ds : str) :
  forallb is_digit ds = true -> rstrip ds = ds.
Proof.
  induction ds as [|c ds IH]; [reflexivity|].
  simpl forallb. intros H. apply andb_true_iff in H. destruct H as [Hc Hd].
  now rewrite (rstrip_cons_nonspace c ds (is_digit_not_space c Hc)), (IH Hd).
Qed.

(** An atom that starts with a digit is a number. *)
Lemma scan_atom_digit (c : char) (r : str) :
  is_digit c = true ->
  scan_atom (c :: r) =
  match match_number (c :: r) with
  | Some (Return v, r') => Done v r'
  | Some (Raise e, _) => Stop e
  | None => Fail
  end.
Proof.
  intros H. apply is_digit_range in H. unfold scan_atom.
  assert (E : forall a p, (a < 0x30 \/ 0x39 < a) ->
                          strip_prefix (a :: p) (c :: r) = None).
  { intros a p Ha. simpl. destruct (N.eqb_spec a c); [lia|reflexivity]. }
  change (lit "null") with (0x6E :: lit "ull").
  change (lit "true") with (0x74 :: lit "rue").
  change (lit "false") with (0x66 :: lit "alse").
  change (lit "NaN") with (0x4E :: lit "aN").
  change (lit "Infinity") with (0x49 :: lit "nfinity").
  change (lit "-Infinity") with (0x2D :: lit "Infinity").
  rewrite !E by lia.
  now destruct (match_number (c :: r)) as [[[v|e] r']|].
Qed.

Lemma match_number_digits (c : char) (ds : str) :
  is_digit c = true -> c <> 0x30 -> forallb is_digit ds = true ->
  match_number (c :: ds) = Some (int_of_literal (c :: ds), []).
Proof.
  intros Hc H0 Hd. pose proof (is_digit_range c Hc) as R.
  unfold match_number, match_integer.
  destruct (N.eqb_spec c 0x2D); [lia|].
  destruct (N.eqb_spec c 0x30); [lia|].
  rewrite Hc, (span_digits_all ds Hd). reflexivity.
Qed.

(** X21.  A string that is one integer with more digits than the limit of
    the conversion (4300) makes the normaliser raise the [ValueError] of
    [int], with its message: [json.loads] raises it, and the [except]
    clause of the normaliser catches the decoding error only. *)
Theorem parse_domains_list_long_integer (c : char) (ds : str) :
  is_digit c = true -> c <> 0x30 -> forallb is_digit ds = true ->
  (int_max_str_digits <= List.length ds)%nat ->
  parse_domains_list (VStr (c :: ds))
  = Raise (ValueError (digit_limit_message (S (List.length ds)))).
Proof.
  intros Hc H0 Hd Hn. pose proof (is_digit_range c Hc) as R.
  assert (Hs : strip (c :: ds) = c :: ds).
  { unfold strip. cbn [lstrip]. rewrite (is_digit_not_space c Hc).
    apply rstrip_digits. simpl. now rewrite Hc, Hd. }
  cbn [parse_domains_list]. rewrite Hs. cbn [truthy negb]. cbv iota.
  assert (Hj : json_loads (c :: ds)
               = Raise (Passed (ValueError
                                  (digit_limit_message (S (List.length ds)))))).
  { unfold json_loads, decode. cbn [skip_ws].
    assert (W : is_ws c = false).
    { unfold is_ws.
      repeat match goal with
      | |- context [?a =? ?b] => destruct (N.eqb_spec a b); try lia
      end; reflexivity. }
    rewrite W.
    assert (E : scan_once recursion_limit (c :: ds) = scan_atom (c :: ds)).
    { destruct recursion_limit; cbn [scan_once];
        destruct (N.eqb_spec c 0x22); try lia;
        destruct (N.eqb_spec c 0x7B); try lia;
        destruct (N.eqb_spec c 0x5B); try lia; reflexivity. }
    rewrite E, (scan_atom_digit c ds Hc), (match_number_digits c ds Hc H0 Hd).
    unfold int_of_literal, digits_of.
    destruct (N.eqb_spec c 0x2D); [lia|].
    cbn [List.length].
    destruct (Nat.leb_spec (S (List.length ds)) int_max_str_digits); [lia|].
    reflexivity. }
  now rewrite Hj.
Qed.

(** X21 at the digit 7 written 4301 times. *)
Lemma parse_domains_list_long_integer_witness :
  parse_domains_list (VStr (0x37 :: repeat 0x37 4300))
  = Raise (ValueError (digit_limit_message (S (List.length (repeat 0x37 4300))))).
Proof.
  apply (parse_domains_list_long_integer 0x37 (repeat 0x37 4300)).
  - reflexivity.
  - discriminate.
  - vm_compute. reflexivity.
  - apply Nat.leb_le. vm_compute. reflexivity.
Defined.

End DecoderLimits.

(* ===================================================================== *)
(** ** The invariant of the normaliser: no blank element *)
(* ===================================================================== *)

Module NormaliserInvariant.

Import PyStrFacts NormaliserFacts JsonTextProperties RequestProperties.
Local Open Scope N_scope.

Lemma lstrip_padding (s : str) :
  exists pre, s = pre ++ lstrip s /\ forallb isspace pre = true.
Proof.
  induction s as [|c r [pre [E W]]]; [now exists []|].
  simpl. destruct (isspace c) eqn:Hc; [|now exists []].
  exists (c :: pre). simpl. now rewrite <- E, Hc, W.
Qed.

Lemma rstrip_padding (s : str) :
  exists post, s = rstrip s ++ post /\ forallb isspace post = true.
Proof.
  induction s as [|c r [post [E W]]]; [now exists []|].
  simpl. destruct (rstrip r) as [|d r'].
  - simpl in E. subst post. destruct (isspace c) eqn:Hc.
    + exists (c :: r). simpl. now rewrite Hc, W.
    + now exists r.
  - exists post. simpl. simpl in E. now rewrite <- E.
Qed.

Lemma strip_padded (s : str) : padded s (strip s).
Proof.
  destruct (lstrip_padding s) as [pre [E1 W1]].
  destruct (rstrip_padding (lstrip s)) as [post [E2 W2]].
  exists pre, post. unfold strip. now rewrite <- E2, <- E1.
Qed.

Lemma rstrip_ends (s : str) : ends_space (rstrip s) = false.
Proof.
  induction s as [|c r IH]; [reflexivity|].
  simpl. destruct (rstrip r) as [|d r'].
  - destruct (isspace c) eqn:Hc; [reflexivity|]. simpl. exact Hc.
  - exact IH.
Qed.

Lemma strip_starts (s : str) : starts_space (strip s) = false.
Proof.
  unfold strip. destruct (lstrip s) as [|c r] eqn:L; [reflexivity|].
  pose proof (lstrip_head s c r L) as Hc.
  now rewrite (rstrip_cons_nonspace c r Hc).
Qed.

Lemma truthy_strip (s : str) : truthy (strip s) = negb (forallb isspace s).
Proof.
  destruct (forallb isspace s) eqn:W.
  - apply strip_nil_iff in W. now rewrite W.
  - destruct (strip s) eqn:E; [|reflexivity].
    apply strip_nil_iff in E. congruence.
Qed.

(** What the comprehension of the normaliser keeps, said without [strip]:
    the elements that are not whitespace only, each without the whitespace
    at its two ends. *)
Lemma stripped_nonempty_padded (l : list str) :
  Forall2 padded (filter (fun e => negb (forallb isspace e)) l)
          (stripped_nonempty l)
  /\ Forall (fun d => d <> [] /\ starts_space d = false /\ ends_space d = false)
            (stripped_nonempty l).
Proof.
  induction l as [|e l [IH1 IH2]]; [split; constructor|].
  simpl. rewrite <- truthy_strip.
  destruct (truthy (strip e)) eqn:T; [|now split].
  split; constructor; try assumption.
  - apply strip_padded.
  - split; [now apply truthy_true|].
    split; [apply strip_starts|apply rstrip_ends].
Qed.

Lemma parse_domains_list_reads (v : value) (elems : list str) :
  reads v elems -> parse_domains_list v = Return (stripped_nonempty elems).
Proof.
  intros [ | l | s l Hj | s Hj Hc | s Hj Hc ]; simpl.
  - reflexivity.
  - apply stripped_domains_strs.
  - destruct (truthy (strip s)) eqn:T; simpl.
    + rewrite Hj. apply stripped_domains_strs.
    + apply truthy_false in T. rewrite T, json_loads_nil in Hj. discriminate.
  - destruct (truthy (strip s)) eqn:T; simpl; [|reflexivity].
    now rewrite Hj, (contains_strip comma s isspace_comma), Hc.
  - destruct (truthy (strip s)) eqn:T; simpl.
    + rewrite Hj, (contains_strip comma s isspace_comma), Hc.
      now rewrite stripped_nonempty_split_strip.
    + apply truthy_false in T.
      rewrite <- (contains_strip comma s isspace_comma), T in Hc.
      discriminate.
Qed.

(** C1 (what the code does).  On a string that holds a JSON string literal
    of whitespace only, the normaliser returns a sequence whose one element
    is the empty string: the branch for a decoded value that is not a list
    trims it and does not drop it when nothing is left, as the three
    comprehensions of the function do. *)
Theorem parse_domains_list_returns_blank_element (x : str) :
  forallb json_safe x = true -> forallb isspace x = true ->
  parse_domains_list (VStr (quoted x)) = Return [[]].
Proof.
  intros Hx Hw.
  assert (Ht : strip (quoted x) = quoted x).
  { now apply (strip_delimited dquote dquote). }
  cbn [parse_domains_list]. rewrite Ht, (json_loads_quoted x Hx).
  apply strip_nil_iff in Hw. cbn. now rewrite Hw.
Qed.

(** C1 at the three characters quote, space, quote. *)
Lemma parse_domains_list_returns_blank_element_witness :
  parse_domains_list (VStr (quoted (lit " "))) = Return [[]].
Proof.
  apply (parse_domains_list_returns_blank_element (lit " ")); reflexivity.
Defined.

(** The same branch on other texts: the literal of the empty string gives
    the empty element too, and a JSON array with an element that is not a
    string makes the normaliser raise instead of returning a sequence. *)
Remark parse_domains_list_other_json :
  parse_domains_list (VStr (quoted [])) = Return [[]]
  /\ parse_domains_list (VStr (quoted (lit "a.com"))) = Return [lit "a.com"]
  /\ parse_domains_list (VStr (lit "[1]")) = Raise AttributeError.
Proof. repeat split; vm_compute; reflexivity. Qed.

(** X19.  On [None], on a list of strings, on a string that decodes to a
    JSON array of strings and on a string that the JSON decoder rejects
    (read as one element, or as the pieces between its commas), the
    normaliser returns a sequence; no element of it is empty or starts or
    ends with whitespace; and the sequence is the elements of the input
    that are not whitespace only, in their order, each without the
    whitespace at its two ends. *)
Theorem parse_domains_list_drops_blanks (v : value) (elems : list str) :
  reads v elems ->
  exists out,
    parse_domains_list v = Return out
    /\ Forall (fun d => d <> [] /\ starts_space d = false /\ ends_space d = false)
              out
    /\ Forall2 padded (filter (fun e => negb (forallb isspace e)) elems) out.
Proof.
  intros Hr. exists (stripped_nonempty elems).
  split; [now apply parse_domains_list_reads|].
  destruct (stripped_nonempty_padded elems) as [H1 H2]. now split.
Qed.

(** X19 at the comma-separated string [" a , b ,, c "]. *)
Lemma parse_domains_list_drops_blanks_witness :
  exists out,
    parse_domains_list (VStr (lit " a , b ,, c ")) = Return out
    /\ Forall (fun d => d <> [] /\ starts_space d = false /\ ends_space d = false)
              out
    /\ Forall2 padded
         (filter (fun e => negb (forallb isspace e))
                 (split comma (lit " a , b ,, c ")))
         out.
Proof.
  apply (parse_domains_list_drops_blanks (VStr (lit " a , b ,, c "))).
  apply reads_commas; reflexivity.
Defined.

End NormaliserInvariant.
